(** * SQL Canvas: node references in queries

    A shallow embedding of the reference pipeline of SQL Canvas:

    - [server/index.js]: the routes [POST /api/query/local] and
      [POST /api/query/local/with-references];
    - [server/database.js]: [runQuery] and [executeSQL];
    - [src/utils/database.ts]: the client functions [executeSQL] and
      [executeSQLWithReferences];
    - [src/App.tsx]: [getNodeByLabel] and the updates of the canvas;
    - [src/components]: the run of an SQL node, the pages of the results
      table and the configuration of the chart.

    JavaScript strings are sequences of UTF-16 code units, promises that
    reject are exceptions, and the DuckDB connection is a piece of state
    that every statement may change. The rows that the engine returns may
    hold BigInts, which [res.json] cannot send; the rows of a request and
    of a response are JSON. A property of a row is looked up on the row,
    then on [Object.prototype]. *)

From Stdlib Require Import NArith ZArith Ascii String DecimalString DecimalN.
From stdpp Require Import base list gmap.

Open Scope N_scope.

(** ** JavaScript strings *)

Module JS.

(** A string is the list of its UTF-16 code units. *)
Abbreviation string := (list N).

(** ASCII literals of the source, as code units. *)
Definition lit (s : String.string) : string :=
  List.map N_of_ascii (list_ascii_of_string s).

Definition lbrace : N := 123.
Definition rbrace : N := 125.
Definition quote : N := 39.
Definition dollar : N := 36.
Definition underscore : N := 95.
Definition space : N := 32.
Definition dquote : N := 34.

(** [!s] on a string: only the empty string is falsy. *)
Definition isEmpty (s : string) : bool :=
  match s with
  | [] => true
  | _ :: _ => false
  end.

(** [WhiteSpace] and [LineTerminator] of ECMAScript, the code units that
    [String.prototype.trim] strips. *)
Definition isWhiteSpace (c : N) : bool :=
  (9 <=? c) && (c <=? 13) || (c =? 32) || (c =? 160) || (c =? 5760)
  || (8192 <=? c) && (c <=? 8202) || (c =? 8232) || (c =? 8233)
  || (c =? 8239) || (c =? 8287) || (c =? 12288) || (c =? 65279).

Fixpoint trimStart (s : string) : string :=
  match s with
  | c :: s' => if isWhiteSpace c then trimStart s' else s
  | [] => []
  end.

Definition trimEnd (s : string) : string := rev (trimStart (rev s)).

(** [s.trim()] *)
Definition trim (s : string) : string := trimEnd (trimStart s).

(** [a.join(sep)] on an array of strings. *)
Fixpoint join (sep : string) (a : list string) : string :=
  match a with
  | [] => []
  | [x] => x
  | x :: a' => x ++ sep ++ join sep a'
  end.

(** [pat] read at the start of [s]; the rest of [s] when it is there. *)
Fixpoint stripPrefix (pat s : string) : option string :=
  match pat, s with
  | [], _ => Some s
  | p :: pat', c :: s' => if p =? c then stripPrefix pat' s' else None
  | _ :: _, [] => None
  end.

(** [GetSubstitution] of ECMAScript for a string pattern (no capture
    groups): in the replacement text, [$$] is a dollar, [$&] the matched
    text, [$`] the text before the match and [$'] the text after it; any
    other character, a dollar included, stands for itself. *)
Fixpoint getSubstitution (matched before after rep : string) : string :=
  match rep with
  | [] => []
  | c :: rep' =>
      if c =? dollar then
        match rep' with
        | d :: rep'' =>
            if d =? dollar then dollar :: getSubstitution matched before after rep''
            else if d =? 38 then matched ++ getSubstitution matched before after rep''
            else if d =? 96 then before ++ getSubstitution matched before after rep''
            else if d =? quote then after ++ getSubstitution matched before after rep''
            else c :: getSubstitution matched before after rep'
        | [] => [c]
        end
      else c :: getSubstitution matched before after rep'
  end.

(** The search of [s.replace(pat, rep)]: [before] is the text already
    passed. The first position where [pat] reads is replaced; a string
    without [pat] is returned as it is. *)
Fixpoint replaceFrom (before s pat rep : string) : string :=
  match stripPrefix pat s with
  | Some after => before ++ getSubstitution pat before after rep ++ after
  | None =>
      match s with
      | [] => before
      | c :: s' => replaceFrom (before ++ [c]) s' pat rep
      end
  end.

(** [s.replace(pat, rep)] with a string pattern: the first occurrence only. *)
Definition replace (s pat rep : string) : string := replaceFrom [] s pat rep.

(** [s.replace(/'/g, "''")] *)
Definition doubleQuotes (s : string) : string :=
  flat_map (fun c => if c =? quote then [quote; quote] else [c]) s.

(** The class [[a-zA-Z0-9_]]. *)
Definition isWordChar (c : N) : bool :=
  (97 <=? c) && (c <=? 122) || (65 <=? c) && (c <=? 90)
  || (48 <=? c) && (c <=? 57) || (c =? underscore).

(** [s.replace(/[^a-zA-Z0-9_]/g, '_')] *)
Definition sanitize (s : string) : string :=
  List.map (fun c => if isWordChar c then c else underscore) s.

End JS.

Abbreviation js := JS.lit.

(** ** The reference scanner: [sql.matchAll(/\{([^}]+)\}/g)] *)

(** A match object: [m[0]] is the text matched, braces included, and [m[1]]
    the text between the braces. *)
Record Match := mkMatch { raw : JS.string; group : JS.string }.

(** The scan cuts the text into the references and the single characters
    between them. *)
Inductive Segment :=
| Text (c : N)
| Ref (m : Match).

(** One left-to-right pass. [st = None]: no brace is open. [st = Some acc]:
    an opening brace was read, followed by [acc], none of which closes it.
    The expression [[^}]+] is greedy and cannot give back a closing brace,
    so an attempt at an opening brace ends at the first closing brace after
    it: a match when at least one character lies between them, and no match
    for [{}]. When the text ends with the brace still open no attempt can
    succeed from there on, and the rest is plain text. *)
Fixpoint scan (st : option JS.string) (s : JS.string) : list Segment :=
  match s with
  | [] =>
      match st with
      | None => []
      | Some acc => List.map Text (JS.lbrace :: acc)
      end
  | c :: s' =>
      match st with
      | None =>
          if c =? JS.lbrace then scan (Some []) s' else Text c :: scan None s'
      | Some acc =>
          if c =? JS.rbrace then
            match acc with
            | [] => Text JS.lbrace :: Text JS.rbrace :: scan None s'
            | _ :: _ =>
                Ref (mkMatch (JS.lbrace :: acc ++ [JS.rbrace]) acc) :: scan None s'
            end
          else scan (Some (acc ++ [c])) s'
      end
  end.

Definition refOf (g : Segment) : option Match :=
  match g with
  | Ref m => Some m
  | Text _ => None
  end.

(** [[...sql.matchAll(referencePattern)]] *)
Definition matchAll (sql : JS.string) : list Match := omap refOf (scan None sql).

(** [match[1].trim()] *)
Definition nodeLabel (m : Match) : JS.string := JS.trim (group m).

(** [`temp_${nodeLabel.replace(/[^a-zA-Z0-9_]/g, '_')}`] *)
Definition tempTableName (nodeLabel : JS.string) : JS.string :=
  js "temp_" ++ JS.sanitize nodeLabel.

(** The second loop of the route: every match, in order, replaces the first
    occurrence of its text in the current query. *)
Fixpoint rewriteLoop (ms : list Match) (modifiedSQL : JS.string) : JS.string :=
  match ms with
  | [] => modifiedSQL
  | m :: ms' =>
      rewriteLoop ms' (JS.replace modifiedSQL (raw m) (tempTableName (nodeLabel m)))
  end.

Definition rewrite (sql : JS.string) : JS.string := rewriteLoop (matchAll sql) sql.

(** ** Result sets, errors, outcomes *)

(** A scalar of a row, as JSON carries it. The numbers are those of JSON;
    how JavaScript prints one ([String(n)], also used by
    [Array.prototype.join]) is a parameter, [numberToString], of what
    follows. *)
Inductive Value (number : Type) :=
| VNull
| VNumber (n : number)
| VString (s : JS.string)
| VBoolean (b : bool).
Arguments VNull {number}.
Arguments VNumber {number} n.
Arguments VString {number} s.
Arguments VBoolean {number} b.

(** A row is the list of its own properties in the order of [Object.keys];
    a result set is an array of rows. *)
Definition Row (number : Type) : Type := list (JS.string * Value number).
Definition ResultSet (number : Type) : Type := list (Row number).

(** What [getNodeByLabel] returns and what [references] holds for a label;
    [results = None] is a node that was never run ([null] or absent). *)
Record NodeData (number : Type) := mkNodeData {
  results : option (ResultSet number);
  label : JS.string
}.
Arguments mkNodeData {number} results label.
Arguments results {number} n.
Arguments label {number} n.

(** What the engine hands back for a column of a row: a scalar that JSON
    carries as it is, or a BigInt ([COUNT], [SUM] over integers, a [BIGINT]
    column), which [JSON.stringify] refuses. *)
Inductive Cell (number : Type) :=
| Json (val : Value number)
| BigInt (z : Z).
Arguments Json {number} val.
Arguments BigInt {number} z.

(** The rows of [conn.all]. *)
Definition Rows (number : Type) : Type := list (list (JS.string * Cell number)).

(** [JSON.stringify(rows)], read back by [JSON.parse]; [None] when
    [JSON.stringify] throws. *)
Definition cellToJSON {number} (cell : Cell number) : option (Value number) :=
  match cell with
  | Json val => Some val
  | BigInt _ => None
  end.

Definition toJSON {number} (rows : Rows number) : option (ResultSet number) :=
  mapM (mapM (fun kv : JS.string * Cell number => pair kv.1 <$> cellToJSON kv.2)) rows.

(** Rows without a BigInt, as the engine hands them back. *)
Definition ofJSON {number} (rows : ResultSet number) : Rows number :=
  List.map (List.map (fun kv : JS.string * Value number => (kv.1, Json kv.2))) rows.

(** [Object.keys(row)] *)
Definition keys {number} (row : Row number) : list JS.string := List.map fst row.

(** The own property [col] of a row. *)
Fixpoint own {number} (row : Row number) (col : JS.string) : option (Value number) :=
  match row with
  | [] => None
  | (k, v) :: row' => if decide (k = col) then Some v else own row' col
  end.

(** [String(f)] for a built-in function [f] named [name], in V8. *)
Definition nativeFunction (name : String.string) : JS.string :=
  js "function " ++ js name ++ js "() { [native code] }".

(** The members of [Object.prototype], which every row inherits, each with
    what [String] makes of it: they are functions, but for [__proto__],
    which reads as [Object.prototype] itself. *)
Definition objectPrototype : list (JS.string * JS.string) :=
  [ (js "constructor", nativeFunction "Object");
    (js "__defineGetter__", nativeFunction "__defineGetter__");
    (js "__defineSetter__", nativeFunction "__defineSetter__");
    (js "hasOwnProperty", nativeFunction "hasOwnProperty");
    (js "__lookupGetter__", nativeFunction "__lookupGetter__");
    (js "__lookupSetter__", nativeFunction "__lookupSetter__");
    (js "isPrototypeOf", nativeFunction "isPrototypeOf");
    (js "propertyIsEnumerable", nativeFunction "propertyIsEnumerable");
    (js "toString", nativeFunction "toString");
    (js "valueOf", nativeFunction "valueOf");
    (js "__proto__", js "[object Object]");
    (js "toLocaleString", nativeFunction "toLocaleString") ].

Definition inherited (col : JS.string) : option JS.string :=
  snd <$> List.find (fun member => bool_decide (member.1 = col)) objectPrototype.

(** What [row[col]] evaluates to: an own property of the row; else the
    member of [Object.prototype] of that name, an object whose [typeof] is
    not ['number'] and of which only the text [String(val)] is kept; else
    [undefined]. *)
Inductive Property (number : Type) :=
| Own (val : Value number)
| Inherited (text : JS.string)
| Undefined.
Arguments Own {number} val.
Arguments Inherited {number} text.
Arguments Undefined {number}.

(** [row[col]] *)
Definition get {number} (row : Row number) (col : JS.string) : Property number :=
  match own row col with
  | Some val => Own val
  | None =>
      match inherited col with
      | Some text => Inherited text
      | None => Undefined
      end
  end.

(** [new Error(message)], and the error objects of the DuckDB driver. *)
Record Error := mkError { message : JS.string }.

(** How an [await] ends. *)
Inductive outcome (A : Type) :=
| Resolved (a : A)
| Rejected (err : Error).
Arguments Resolved {A} a.
Arguments Rejected {A} err.

(** The three answers of a route: [res.json({ data, error: null })],
    [res.json({ data: null, error })] and
    [res.status(400).json({ error })]. *)
Inductive Response (number : Type) :=
| Data (rows : ResultSet number)
| Failure (error : JS.string)
| BadRequest (error : JS.string).
Arguments Data {number} rows.
Arguments Failure {number} error.
Arguments BadRequest {number} error.

(** ** Asynchronous code with exceptions over a state *)

Definition M (S A : Type) : Type := S -> outcome A * S.

Definition ret {S A} (a : A) : M S A := fun s => (Resolved a, s).

Definition throw {S A} (err : Error) : M S A := fun s => (Rejected err, s).

Definition bind {S A B} (m : M S A) (k : A -> M S B) : M S B :=
  fun s =>
    match m s with
    | (Resolved a, s') => k a s'
    | (Rejected err, s') => (Rejected err, s')
    end.

(** [try { body } catch (error) { handler }]: what [body] did to the state
    before it threw stays done. *)
Definition tryCatch {S A} (body : M S A) (handler : Error -> M S A) : M S A :=
  fun s =>
    match body s with
    | (Resolved a, s') => (Resolved a, s')
    | (Rejected err, s') => handler err s'
    end.

Notation "x <- m ;; k" := (bind m (fun x => k))
  (at level 100, m at next level, right associativity).
Notation "m ;;; k" := (bind m (fun _ => k))
  (at level 100, right associativity).

(** [for (const x of xs) { body }] *)
Fixpoint forOf {S A} (xs : list A) (body : A -> M S unit) : M S unit :=
  match xs with
  | [] => ret tt
  | x :: xs' => body x ;;; forOf xs' body
  end.

(** ** [server/database.js] *)

Module Database.
Section Database.
Context {number Engine : Type}.

(** [conn.all(sql, callback)]: the engine answers with rows or with an
    error and moves to its next state. The module is taken after
    [initDatabase] has set [conn]. *)
Variable conn_all : JS.string -> Engine -> outcome (Rows number) * Engine.

Definition runQuery (sql : JS.string) : M Engine (Rows number) :=
  conn_all sql.

(** [conn] is set, so the guard [if (!conn)] is passed over. *)
Definition executeSQL (sql : JS.string) : M Engine (Rows number) :=
  let trimmedSQL := JS.trim sql in
  if JS.isEmpty trimmedSQL then throw (mkError (js "Empty query"))
  else runQuery trimmedSQL.

End Database.
End Database.

(** ** [server/index.js] *)

Module Server.
Section Server.
Context {number Engine : Type}.
Variable numberToString : number -> JS.string.
Variable conn_all : JS.string -> Engine -> outcome (Rows number) * Engine.

(** The [TypeError] of [JSON.stringify]. *)
Definition notSerializable : Error := mkError (js "Do not know how to serialize a BigInt").

(** [res.json({ data: results, error: null })]: the body is made by
    [JSON.stringify], which throws before anything is sent. *)
Definition json {S} (results : Rows number) : M S (Response number) :=
  match toJSON results with
  | Some data => ret (Data data)
  | None => throw notSerializable
  end.

(** The route [POST /api/query/local]. *)
Definition queryLocal (sql : JS.string) : M Engine (Response number) :=
  tryCatch
    (if JS.isEmpty sql then ret (BadRequest (js "SQL query is required"))
     else
       results <- Database.executeSQL conn_all sql ;;
       json results)
    (fun error => ret (Failure (message error))).

(** What one request to the with-references route works on: the
    connection and its own array [tempTables]. *)
Record State := mkState { conn : Engine; tempTables : list JS.string }.

(** A call into [database.js]. *)
Definition db {A} (m : M Engine A) : M State A :=
  fun st =>
    let '(r, e) := m (conn st) in
    (r, mkState e (tempTables st)).

(** [tempTables.push(tempTableName)] *)
Definition push (tempTableName : JS.string) : M State unit :=
  fun st => (Resolved tt, mkState (conn st) (tempTables st ++ [tempTableName])).

(** [String(val)] *)
Definition toString (val : Value number) : JS.string :=
  match val with
  | VNull => js "null"
  | VNumber n => numberToString n
  | VString s => s
  | VBoolean true => js "true"
  | VBoolean false => js "false"
  end.

(** [`'${String(val).replace(/'/g, "''")}'`] *)
Definition quoted (text : JS.string) : JS.string :=
  [JS.quote] ++ JS.doubleQuotes text ++ [JS.quote].

(** One entry of [rowValues]. *)
Definition rowValue (val : Property number) : JS.string :=
  match val with
  | Undefined | Own VNull => js "NULL"
  | Own (VNumber n) => numberToString n
  | Own val => quoted (toString val)
  | Inherited text => quoted text
  end.

(** [`(${rowValues.join(', ')})`] *)
Definition rowLiteral (columns : list JS.string) (row : Row number) : JS.string :=
  js "(" ++ JS.join (js ", ") (List.map (fun col => rowValue (get row col)) columns)
  ++ js ")".

Definition newline : N := 10.

(** [values]: the rows, joined by a comma and a line feed. *)
Definition valuesOf (columns : list JS.string) (rows : ResultSet number) : JS.string :=
  JS.join [44; newline] (List.map (rowLiteral columns) rows).

(** [columns.map(col => `"${col}"`).join(', ')] *)
Definition columnAliases (columns : list JS.string) : JS.string :=
  JS.join (js ", ") (List.map (fun col => [JS.dquote] ++ col ++ [JS.dquote]) columns).

Definition createTableSQL (tempTableName values columnAliases : JS.string) : JS.string :=
  js "CREATE TEMP TABLE " ++ tempTableName ++ js " AS SELECT * FROM (VALUES "
  ++ values ++ js ") AS t(" ++ columnAliases ++ js ")".

Definition dropTableSQL (tempTable : JS.string) : JS.string :=
  js "DROP TABLE " ++ tempTable.

(** [`Node "${nodeLabel}" has no results`] *)
Definition noResults (nodeLabel : JS.string) : JS.string :=
  js "Node " ++ [JS.dquote] ++ nodeLabel ++ [JS.dquote] ++ js " has no results".

(** The statement that materializes [rows], whose first row is [row0]. *)
Definition createStatement (nodeLabel : JS.string) (row0 : Row number)
    (rows : ResultSet number) : JS.string :=
  let columns := keys row0 in
  createTableSQL (tempTableName nodeLabel) (valuesOf columns rows) (columnAliases columns).

(** The body of the first loop, for one match. A label that [references]
    does not hold, even one that names a member of [Object.prototype],
    ends in the same [throw]: what is found there has no [results]. *)
Definition materialize (references : gmap JS.string (NodeData number)) (m : Match)
    : M State unit :=
  let nodeLabel := nodeLabel m in
  match references !! nodeLabel with
  | None => throw (mkError (noResults nodeLabel))
  | Some referencedData =>
      match results referencedData with
      | None | Some [] => throw (mkError (noResults nodeLabel))
      | Some (row0 :: rows) =>
          push (tempTableName nodeLabel) ;;;
          _ <- db (Database.runQuery conn_all
                     (createStatement nodeLabel row0 (row0 :: rows))) ;;
          ret tt
      end
  end.

(** One turn of a cleanup loop: [try { await runQuery(...) } catch (e) {}] *)
Definition dropTable (tempTable : JS.string) : M State unit :=
  tryCatch
    (_ <- db (Database.runQuery conn_all (dropTableSQL tempTable)) ;; ret tt)
    (fun _ => ret tt).

(** [for (const tempTable of tempTables) { ... }] *)
Definition cleanup : M State unit :=
  fun st => forOf (tempTables st) dropTable st.

(** The inner [try] block and its [catch]. The answer is sent inside the
    [try], after the cleanup: when [res.json] throws, the [catch] runs the
    cleanup loop once more. *)
Definition pipeline (sql : JS.string) (references : gmap JS.string (NodeData number))
    : M State (Response number) :=
  let matches := matchAll sql in
  tryCatch
    (forOf matches (materialize references) ;;;
     let modifiedSQL := rewriteLoop matches sql in
     results <- db (Database.executeSQL conn_all modifiedSQL) ;;
     cleanup ;;;
     json results)
    (fun error => cleanup ;;; throw error).

(** The handler inside its outer [try]; [tempTables] starts empty. *)
Definition handler (sql : JS.string) (references : gmap JS.string (NodeData number))
    : M State (Response number) :=
  tryCatch
    (if JS.isEmpty sql then ret (BadRequest (js "SQL query is required"))
     else pipeline sql references)
    (fun error => ret (Failure (message error))).

(** The route [POST /api/query/local/with-references]. *)
Definition queryLocalWithReferences (sql : JS.string)
    (references : gmap JS.string (NodeData number)) : M Engine (Response number) :=
  fun e =>
    let '(r, st) := handler sql references (mkState e []) in
    (r, conn st).

End Server.
End Server.

(** ** [src/utils/database.ts] *)

Module Client.
Section Client.
Context {number Engine : Type}.
Variable numberToString : number -> JS.string.
Variable conn_all : JS.string -> Engine -> outcome (Rows number) * Engine.

(** From [await response.json()] on: a non-empty [result.error] is
    thrown, otherwise [result.data || []] is returned. *)
Definition resultOf {S} (result : Response number) : M S (ResultSet number) :=
  match result with
  | Data rows => ret rows
  | Failure error | BadRequest error =>
      if JS.isEmpty error then ret [] else throw (mkError error)
  end.

(** [catch (error) { throw new Error(error.message || 'SQL execution error') }] *)
Definition rethrow {S A} (error : Error) : M S A :=
  throw (mkError (if JS.isEmpty (message error) then js "SQL execution error"
                  else message error)).

(** [executeSQL]; [fetch] reaches the route [/api/query/local]. *)
Definition executeSQL (sql : JS.string) : M Engine (ResultSet number) :=
  let trimmedSQL := JS.trim sql in
  if JS.isEmpty trimmedSQL then throw (mkError (js "Empty query"))
  else
    tryCatch
      (result <- Server.queryLocal conn_all trimmedSQL ;;
       resultOf result)
      rethrow.

(** [`Node with label "${nodeLabel}" not found`] *)
Definition notFound (nodeLabel : JS.string) : JS.string :=
  js "Node with label " ++ [JS.dquote] ++ nodeLabel ++ [JS.dquote] ++ js " not found".

(** [references[nodeLabel] = referencedNode] on a plain object, as the
    request body will show it: the key [__proto__] sets the prototype
    and leaves no property for [JSON.stringify]. *)
Definition assign (nodeLabel : JS.string) (referencedNode : NodeData number)
    (references : gmap JS.string (NodeData number)) : gmap JS.string (NodeData number) :=
  if decide (nodeLabel = js "__proto__") then references
  else <[nodeLabel := referencedNode]> references.

(** The loop that builds [references]; it throws at the first label
    without a node or without rows. *)
Fixpoint collect (getNodeByLabel : JS.string -> option (NodeData number))
    (matches : list Match) (references : gmap JS.string (NodeData number))
    : outcome (gmap JS.string (NodeData number)) :=
  match matches with
  | [] => Resolved references
  | m :: matches' =>
      let nodeLabel := nodeLabel m in
      match getNodeByLabel nodeLabel with
      | None => Rejected (mkError (notFound nodeLabel))
      | Some referencedNode =>
          match results referencedNode with
          | None | Some [] => Rejected (mkError (Server.noResults nodeLabel))
          | Some (_ :: _) =>
              collect getNodeByLabel matches' (assign nodeLabel referencedNode references)
          end
      end
  end.

(** [executeSQLWithReferences]; [fetch] reaches the route
    [/api/query/local/with-references]. *)
Definition executeSQLWithReferences (sql : JS.string)
    (getNodeByLabel : JS.string -> option (NodeData number))
    : M Engine (ResultSet number) :=
  let trimmedSQL := JS.trim sql in
  if JS.isEmpty trimmedSQL then throw (mkError (js "Empty query"))
  else
    match collect getNodeByLabel (matchAll trimmedSQL) ∅ with
    | Rejected error => throw error
    | Resolved references =>
        tryCatch
          (result <- Server.queryLocalWithReferences numberToString conn_all
                       trimmedSQL references ;;
           resultOf result)
          rethrow
    end.

End Client.
End Client.

(** ** Engines to run the pipeline on *)

(** Any engine, with the list of the statements it was sent. *)
Definition traced {number Engine : Type}
    (conn_all : JS.string -> Engine -> outcome (Rows number) * Engine)
    : JS.string -> Engine * list JS.string -> outcome (Rows number) * (Engine * list JS.string) :=
  fun sql '(e, log) =>
    let '(r, e') := conn_all sql e in
    (r, (e', log ++ [sql])).

(** An engine that accepts every statement and returns no row. *)
Definition accepting {number : Type} : JS.string -> unit -> outcome (Rows number) * unit :=
  fun _ e => (Resolved [], e).

(** The text up to the first space. *)
Fixpoint firstWord (s : JS.string) : JS.string :=
  match s with
  | [] => []
  | c :: s' => if c =? JS.space then [] else c :: firstWord s'
  end.

(** An engine that keeps a catalog: the names of the relations of the
    session. [CREATE TEMP TABLE name ...] is refused when [name] is taken,
    [DROP TABLE name] when [name] is not there; any other statement returns
    no row and leaves the catalog as it is. [failDrop] makes every [DROP]
    fail, as it does when the engine has gone away. *)
Definition catalogEngine {number : Type} (failDrop : bool)
    : JS.string -> list JS.string -> outcome (Rows number) * list JS.string :=
  fun sql catalog =>
    match JS.stripPrefix (js "CREATE TEMP TABLE ") sql with
    | Some rest =>
        let name := firstWord rest in
        if decide (name ∈ catalog)
        then (Rejected (mkError (js "Catalog Error: table already exists")), catalog)
        else (Resolved [], catalog ++ [name])
    | None =>
        match JS.stripPrefix (js "DROP TABLE ") sql with
        | Some name =>
            if failDrop then (Rejected (mkError (js "Connection Error")), catalog)
            else if decide (name ∈ catalog)
            then (Resolved [], List.filter (fun n => negb (bool_decide (n = name))) catalog)
            else (Rejected (mkError (js "Catalog Error: table does not exist")), catalog)
        | None => (Resolved [], catalog)
        end
    end.

(** ** [src/App.tsx]: the lookup of a node by its label *)

(** [nodesRef.current.find(n => n.type === 'sqlNode' && n.data.label === label)],
    over the SQL nodes of the canvas; the first node with the label is
    returned with its results. *)
Fixpoint getNodeByLabel {number} (nodes : list (NodeData number)) (lbl : JS.string)
    : option (NodeData number) :=
  match nodes with
  | [] => None
  | node :: nodes' =>
      if decide (label node = lbl) then Some (mkNodeData (results node) (label node))
      else getNodeByLabel nodes' lbl
  end.

(** ** A canvas and requests to run *)

(** Integers, printed in decimal, for the numbers of the examples. *)
Definition zToString (z : Z) : JS.string := js (NilZero.string_of_int (Z.to_int z)).

Definition salesRows : ResultSet Z :=
  [ [(js "city", VString (js "NY")); (js "total", VNumber 100%Z)];
    [(js "city", VString (js "LA")); (js "total", VNumber 50%Z)] ].

(** A node that was run, a node that was never run, a node run without a
    row. *)
Definition canvas : list (NodeData Z) :=
  [ mkNodeData (Some salesRows) (js "sales");
    mkNodeData None (js "draft");
    mkNodeData (Some []) (js "empty") ].

Definition salesRefs : gmap JS.string (NodeData Z) :=
  {[ js "sales" := mkNodeData (Some salesRows) (js "sales") ]}.

Definition salesCreate : JS.string :=
  Server.createTableSQL (js "temp_sales")
    (js "('NY', 100)," ++ [10] ++ js "('LA', 50)")
    ([34] ++ js "city" ++ [34] ++ js ", " ++ [34] ++ js "total" ++ [34]).

Definition salesMatch : Match := mkMatch (js "{sales}") (js "sales").
Definition ghostMatch : Match := mkMatch (js "{ghost}") (js "ghost").

Definition selectSales : JS.string := js "SELECT * FROM {sales} WHERE total > 60".
Definition joinGhost : JS.string := js "SELECT * FROM {sales} JOIN {ghost}".
Definition selectGhost : JS.string := js "SELECT * FROM {ghost}".
Definition twiceGhost : JS.string :=
  js "SELECT * FROM {sales} a JOIN {sales} b ON a.city=b.city JOIN {ghost}".

(** ** Substitution by spans *)

(** What a segment of the scan stands for in the query, and what stands
    for it once every reference has been replaced by its relation. *)
Definition original (g : Segment) : JS.string :=
  match g with
  | Text c => [c]
  | Ref m => raw m
  end.

Definition substituted (g : Segment) : JS.string :=
  match g with
  | Text c => [c]
  | Ref m => tempTableName (nodeLabel m)
  end.

(** The query with every scanned occurrence replaced, span by span, in one
    pass. *)
Definition substituteSpans (sql : JS.string) : JS.string :=
  concat (List.map substituted (scan None sql)).

(** Every opening brace of [u] is followed, inside [u], by a closing one:
    no reference starts in [u], whatever text comes after it. *)
Fixpoint closed (u : JS.string) : bool :=
  match u with
  | [] => true
  | c :: u' =>
      if c =? JS.lbrace then
        match u' with
        | d :: _ => (d =? JS.rbrace) && closed u'
        | [] => false
        end
      else closed u'
  end.

(** ** The parts of a request *)

(** A label resolves when it has a node and the node has a row. *)
Definition hasRows {number} (node : option (NodeData number)) : bool :=
  match node with
  | Some data =>
      match results data with
      | Some (_ :: _) => true
      | _ => false
      end
  | None => false
  end.

(** Reading back an SQL string literal: an opening quote, then the text,
    in which two quotes in a row stand for one, up to the closing quote,
    which ends the literal. [readBody] reads what follows the opening
    quote. *)
Fixpoint readBody (s : JS.string) : option JS.string :=
  match s with
  | [] => None
  | c :: s' =>
      if c =? JS.quote then
        match s' with
        | [] => Some []
        | d :: s'' => if d =? JS.quote then cons JS.quote <$> readBody s'' else None
        end
      else cons c <$> readBody s'
  end.

Definition readLiteral (s : JS.string) : option JS.string :=
  match s with
  | c :: s' => if c =? JS.quote then readBody s' else None
  | [] => None
  end.

(** A query that is empty or made of whitespace only. *)
Definition blank (sql : JS.string) : Prop :=
  Forall (fun c => JS.isWhiteSpace c = true) sql.

Section Parts.
Context {number Engine : Type}.
Variable numberToString : number -> JS.string.
Variable conn_all : JS.string -> Engine -> outcome (Rows number) * Engine.

(** The inner [try] block up to the cleanup: the loop that materializes,
    then the rewritten query. *)
Definition execution (sql : JS.string) (references : gmap JS.string (NodeData number))
    : M Server.State (Rows number) :=
  forOf (matchAll sql) (Server.materialize numberToString conn_all references) ;;;
  Server.db (Database.executeSQL conn_all (rewrite sql)).

(** The connection after a [DROP TABLE] for each of [tempTables], sent
    whatever the engine answers. *)
Definition dropAll (tempTables : list JS.string) (e : Engine) : Engine :=
  fold_left (fun e tempTable => snd (conn_all (Server.dropTableSQL tempTable) e))
    tempTables e.

Definition cleaned (st : Server.State) : Server.State :=
  Server.mkState (dropAll (Server.tempTables st) (Server.conn st)) (Server.tempTables st).

(** Twice over when the cleanup loop runs again. *)
Definition cleanedTimes (n : nat) (st : Server.State) : Server.State :=
  Nat.iter n cleaned st.

(** What the route answers to the outcome of [execution]: the rows when
    [res.json] can send them, the message of the error otherwise. *)
Definition answerTo (r : outcome (Rows number)) : Response number :=
  match r with
  | Resolved rows =>
      match toJSON rows with
      | Some data => Data data
      | None => Failure (message Server.notSerializable)
      end
  | Rejected err => Failure (message err)
  end.

(** How many times the cleanup loop runs: once, and once more in the
    [catch] when [res.json] threw. *)
Definition rounds (r : outcome (Rows number)) : nat :=
  match r with
  | Resolved rows =>
      match toJSON rows with
      | Some _ => 1
      | None => 2
      end
  | Rejected _ => 1
  end.

(** What a match resolves to in [references]: the first row and all the
    rows, when there is one. *)
Definition resolve (references : gmap JS.string (NodeData number)) (m : Match)
    : option (Row number * ResultSet number) :=
  match references !! nodeLabel m with
  | Some referencedData =>
      match results referencedData with
      | Some (row0 :: rows) => Some (row0, row0 :: rows)
      | _ => None
      end
  | None => None
  end.

(** The statement that materializes a match. *)
Definition createOf (references : gmap JS.string (NodeData number)) (m : Match)
    : option JS.string :=
  match resolve references m with
  | Some (row0, rows) => Some (Server.createStatement numberToString (nodeLabel m) row0 rows)
  | None => None
  end.

(** An engine with the usual semantics of [CREATE] and [DROP] over its
    catalog [tables], for relation names made of word characters: a
    creation that succeeds adds the name and one that fails changes
    nothing; a drop that succeeds removes the name, and a drop fails only
    when the name is not there. *)
Definition standardDDL (tables : Engine -> gset JS.string) : Prop :=
  (forall name values aliases e,
     Forall (fun c => JS.isWordChar c = true) name ->
     match conn_all (Server.createTableSQL name values aliases) e with
     | (Resolved _, e') => tables e' = {[name]} ∪ tables e
     | (Rejected _, e') => tables e' = tables e
     end) /\
  (forall name e,
     Forall (fun c => JS.isWordChar c = true) name ->
     match conn_all (Server.dropTableSQL name) e with
     | (Resolved _, e') => tables e' = tables e ∖ {[name]}
     | (Rejected _, e') => (name ∉ tables e) /\ tables e' = tables e
     end).

(** A run on a traced engine, seen without the trace. *)
Definition erase (st : @Server.State (Engine * list JS.string)) : @Server.State Engine :=
  Server.mkState (fst (Server.conn st)) (Server.tempTables st).

(** [mt], on the traced engine, does what [m] does on the engine itself. *)
Definition untraced {A} (mt : M (@Server.State (Engine * list JS.string)) A)
    (m : M (@Server.State Engine) A) : Prop :=
  forall st, m (erase st) = (fst (mt st), erase (snd (mt st))).

End Parts.

(** ** Arrays *)

Module JSArray.

(** [a.slice(start, end)]: a negative index counts from the end, and both
    indices are brought into the array. *)
Definition slice {A} (a : list A) (start final : Z) : list A :=
  let len := Z.of_nat (length a) in
  let relative i := if (i <? 0)%Z then Z.max (len + i) 0 else Z.min i len in
  let k := relative start in
  take (Z.to_nat (relative final - k)) (drop (Z.to_nat k) a).

(** [a.includes(x)] on an array of strings. *)
Definition includes (a : list JS.string) (x : JS.string) : bool := bool_decide (x ∈ a).

End JSArray.

(** ** [src/App.tsx]: the nodes of the canvas *)

Module App.
Section App.
Context {number : Type}.

(** [node.data], without the callbacks; a property that a node does not
    have is [None]. *)
Record Data := mkData {
  label : option JS.string;
  results : option (ResultSet number);
  sql : option JS.string;
  text : option JS.string;
  locked : option bool
}.

(** A node of the canvas. Its position, style and [zIndex] are carried
    along by every update and are left out. *)
Record Node := mkNode {
  id : JS.string;
  type : JS.string;
  draggable : option bool;
  data : Data
}.

(** [nds.filter((node) => node.id !== nodeId)] *)
Definition deleteNode (nodeId : JS.string) (nds : list Node) : list Node :=
  List.filter (fun node => negb (bool_decide (id node = nodeId))) nds.

(** The shape of the five updates: the node with the id is rebuilt, the
    others are returned as they are. *)
Definition updateNode (nodeId : JS.string) (f : Node -> Node) (nds : list Node) : list Node :=
  List.map (fun node => if decide (id node = nodeId) then f node else node) nds.

Definition updateNodeLabel (nodeId newLabel : JS.string) : list Node -> list Node :=
  updateNode nodeId (fun node =>
    let d := data node in
    mkNode (id node) (type node) (draggable node)
      (mkData (Some newLabel) (results d) (sql d) (text d) (locked d))).

Definition updateNodeResults (nodeId : JS.string) (rows : option (ResultSet number))
    : list Node -> list Node :=
  updateNode nodeId (fun node =>
    let d := data node in
    mkNode (id node) (type node) (draggable node)
      (mkData (label d) rows (sql d) (text d) (locked d))).

Definition updateNodeSQL (nodeId newSQL : JS.string) : list Node -> list Node :=
  updateNode nodeId (fun node =>
    let d := data node in
    mkNode (id node) (type node) (draggable node)
      (mkData (label d) (results d) (Some newSQL) (text d) (locked d))).

Definition updateNodeText (nodeId newText : JS.string) : list Node -> list Node :=
  updateNode nodeId (fun node =>
    let d := data node in
    mkNode (id node) (type node) (draggable node)
      (mkData (label d) (results d) (sql d) (Some newText) (locked d))).

(** [draggable: !locked] *)
Definition updateNodeLock (nodeId : JS.string) (lock : bool) : list Node -> list Node :=
  updateNode nodeId (fun node =>
    let d := data node in
    mkNode (id node) (type node) (Some (negb lock))
      (mkData (label d) (results d) (sql d) (text d) (Some lock))).

(** [nodesRef.current.find((n) => n.type === 'sqlNode' && n.data.label === label)]
    and what is returned for the node found. *)
Fixpoint getNodeByLabel (nodes : list Node) (lbl : JS.string) : option (NodeData number) :=
  match nodes with
  | [] => None
  | n :: nodes' =>
      if bool_decide (type n = js "sqlNode") && bool_decide (label (data n) = Some lbl)
      then Some (mkNodeData (results (data n)) lbl)
      else getNodeByLabel nodes' lbl
  end.

(** [nodeId.toString()], for the counter of the canvas. *)
Definition numberToString (n : N) : JS.string := js (NilEmpty.string_of_uint (N.to_uint n)).

(** The canvas: the nodes and the counter [nodeId]. *)
Record Canvas := mkCanvas { nodes : list Node; nodeId : N }.

(** The first node, set when the application starts. *)
Definition initial : Canvas :=
  mkCanvas
    [mkNode (js "1") (js "sqlNode") None
       (mkData (Some (js "SQL Node #1")) None (Some (js "SELECT * FROM users LIMIT 10"))
          None (Some false))]
    2.

Definition newline : N := 10.

(** [addNode], [addNoteNode] and [addRectangleNode]: a node with the
    counter for its id is put at the end and the counter moves on. *)
Definition addNode (c : Canvas) : Canvas :=
  mkCanvas
    (nodes c ++
     [mkNode (numberToString (nodeId c)) (js "sqlNode") None
        (mkData (Some (js "SQL Node #" ++ numberToString (nodeId c))) None
           (Some (js "-- Write your SQL query here" ++ [newline] ++ js "SELECT * FROM table_name"))
           None (Some false))])
    (nodeId c + 1).

Definition addNoteNode (c : Canvas) : Canvas :=
  mkCanvas
    (nodes c ++
     [mkNode (numberToString (nodeId c)) (js "noteNode") None
        (mkData (Some (js "Note #" ++ numberToString (nodeId c))) None None (Some [])
           (Some false))])
    (nodeId c + 1).

Definition addRectangleNode (c : Canvas) : Canvas :=
  mkCanvas
    (nodes c ++
     [mkNode (numberToString (nodeId c)) (js "rectangleNode") None
        (mkData None None None None (Some false))])
    (nodeId c + 1).

(** [clearCanvas], once confirmed. *)
Definition clearCanvas (c : Canvas) : Canvas := mkCanvas [] 2.

(** What [saveCanvas] writes for a node, and what [loadCanvas] makes of it:
    the results are not restored, and a node is draggable unless it is
    locked. *)
Definition saved (node : Node) : Node :=
  let d := data node in
  mkNode (id node) (type node) None (mkData (label d) None (sql d) (text d) (locked d)).

Definition restored (node : Node) : Node :=
  let d := data node in
  mkNode (id node) (type node)
    (Some (match locked d with Some true => false | _ => true end))
    (mkData (label d) None (sql d) (text d) (locked d)).

Definition saveCanvas (c : Canvas) : Canvas := mkCanvas (List.map saved (nodes c)) (nodeId c).

Definition loadCanvas (file : Canvas) : Canvas :=
  mkCanvas (List.map restored (nodes file)) (nodeId file).

(** What the user can do to the canvas. *)
Inductive step : Canvas -> Canvas -> Prop :=
| step_addNode c : step c (addNode c)
| step_addNoteNode c : step c (addNoteNode c)
| step_addRectangleNode c : step c (addRectangleNode c)
| step_deleteNode c nodeId' :
    step c (mkCanvas (deleteNode nodeId' (nodes c)) (nodeId c))
| step_updateNodeLabel c nodeId' newLabel :
    step c (mkCanvas (updateNodeLabel nodeId' newLabel (nodes c)) (nodeId c))
| step_updateNodeResults c nodeId' rows :
    step c (mkCanvas (updateNodeResults nodeId' rows (nodes c)) (nodeId c))
| step_updateNodeSQL c nodeId' newSQL :
    step c (mkCanvas (updateNodeSQL nodeId' newSQL (nodes c)) (nodeId c))
| step_updateNodeText c nodeId' newText :
    step c (mkCanvas (updateNodeText nodeId' newText (nodes c)) (nodeId c))
| step_updateNodeLock c nodeId' lock :
    step c (mkCanvas (updateNodeLock nodeId' lock (nodes c)) (nodeId c))
| step_clearCanvas c : step c (clearCanvas c).

(** The canvases that the user can reach from the first one, also by
    loading a file that was saved from such a canvas. *)
Inductive reachable : Canvas -> Prop :=
| reachable_initial : reachable initial
| reachable_step c c' : reachable c -> step c c' -> reachable c'
| reachable_load c : reachable c -> reachable (loadCanvas (saveCanvas c)).

End App.
End App.

(** What every canvas that can be reached keeps: the ids of its nodes are
    numbers below the counter, no two nodes have one id, and a node is
    draggable unless it is locked. *)
Definition canvasInvariant {number} (c : @App.Canvas number) : Prop :=
  NoDup (List.map App.id (App.nodes c)) /\
  Forall (fun n => exists k, k < App.nodeId c /\ App.id n = App.numberToString k)
    (App.nodes c) /\
  Forall (fun n => exists b, App.locked (App.data n) = Some b /\
                             (App.draggable n = Some (negb b) \/
                              (App.draggable n = None /\ b = false)))
    (App.nodes c).

(** ** [src/components/SQLNode.tsx] *)

Module SQLNode.
Section SQLNode.
Context {number Engine : Type}.
Variable numberToString : number -> JS.string.
Variable conn_all : JS.string -> Engine -> outcome (Rows number) * Engine.

(** [sql.includes('{')] *)
Definition includes (s : JS.string) (c : N) : bool := existsb (N.eqb c) s.

(** The state of the component that a run sets: [results] and [error]. *)
Record Shown := mkShown { results : option (ResultSet number); error : option JS.string }.

(** [executeQuery], for the node [id] with the text [sql], on a canvas
    whose SQL nodes have their callbacks, as [App] makes them: the lookup
    reads the nodes as they are when the query is run, and
    [onResultsChange] is [updateNodeResults]. *)
Definition executeQuery (id sql : JS.string) (nds : list (@App.Node number))
    : Engine -> Shown * list (@App.Node number) * Engine :=
  fun e =>
    let run :=
      if includes sql JS.lbrace
      then Client.executeSQLWithReferences numberToString conn_all sql (App.getNodeByLabel nds)
      else Client.executeSQL conn_all sql in
    match run e with
    | (Resolved queryResults, e') =>
        (mkShown (Some queryResults) None,
         App.updateNodeResults id (Some queryResults) nds, e')
    | (Rejected err, e') =>
        (mkShown None (Some (message err)), App.updateNodeResults id None nds, e')
    end.

(** The effect that follows a change of [results]: a dimension or a metric
    that is no column of the new rows is dropped. Without rows nothing
    changes. *)
Definition resetDimension (rows : option (ResultSet number)) (prevDim : option JS.string)
    : option JS.string :=
  match rows with
  | Some (row0 :: _) =>
      match prevDim with
      | Some d =>
          if negb (JS.isEmpty d) && negb (JSArray.includes (keys row0) d) then None
          else prevDim
      | None => None
      end
  | _ => prevDim
  end.

Definition resetMetrics (rows : option (ResultSet number)) (prevMetrics : list JS.string)
    : list JS.string :=
  match rows with
  | Some (row0 :: _) =>
      let validMetrics := List.filter (fun metric => JSArray.includes (keys row0) metric) prevMetrics in
      if negb (length validMetrics =? length prevMetrics)%nat then validMetrics
      else prevMetrics
  | _ => prevMetrics
  end.

End SQLNode.
End SQLNode.

(** ** [src/components/ResultsTable.tsx] *)

Module ResultsTable.
Section ResultsTable.
Context {A : Type}.

Definition ROWS_PER_PAGE : Z := 100.

(** [Math.ceil(data.length / ROWS_PER_PAGE)]; the quotient of two such
    integers is far enough from the next integer for the rounding of the
    division not to matter. *)
Definition totalPages (data : list A) : Z :=
  ((Z.of_nat (length data) + (ROWS_PER_PAGE - 1)) / ROWS_PER_PAGE)%Z.

Definition startIdx (currentPage : Z) : Z := ((currentPage - 1) * ROWS_PER_PAGE)%Z.
Definition endIdx (currentPage : Z) : Z := (startIdx currentPage + ROWS_PER_PAGE)%Z.

Definition paginatedData (data : list A) (currentPage : Z) : list A :=
  JSArray.slice data (startIdx currentPage) (endIdx currentPage).

(** The four buttons; [First] and [Previous] are disabled on the first
    page, [Next] and [Last] on the last one. *)
Inductive press (data : list A) : Z -> Z -> Prop :=
| press_first p : p ≠ 1%Z -> press data p 1%Z
| press_previous p : p ≠ 1%Z -> press data p (p - 1)%Z
| press_next p : p ≠ totalPages data -> press data p (p + 1)%Z
| press_last p : p ≠ totalPages data -> press data p (totalPages data).

End ResultsTable.
End ResultsTable.

(** ** [src/components/ResultsChart.tsx] *)

Module ResultsChart.
Section ResultsChart.
Context {number : Type}.

Record ChartConfig := mkChartConfig {
  xAxisKey : option JS.string;
  yAxisKeys : list JS.string
}.

(** [val === null || val === undefined || typeof val === 'number'] *)
Definition numericOrNull (val : Property number) : bool :=
  match val with
  | Undefined | Own VNull | Own (VNumber _) => true
  | Own (VString _) | Own (VBoolean _) | Inherited _ => false
  end.

Definition numericColumns (data : ResultSet number) (columns : list JS.string)
    : list JS.string :=
  List.filter (fun col => forallb (fun row => numericOrNull (get row col)) data) columns.

Definition stringColumns (data : ResultSet number) (columns : list JS.string)
    : list JS.string :=
  List.filter (fun col => negb (JSArray.includes (numericColumns data columns) col)) columns.

(** [a[0] || b[0]]: the first element of [a] unless it is missing or the
    empty string. *)
Definition firstOr (a b : list JS.string) : option JS.string :=
  match a with
  | x :: _ => if JS.isEmpty x then head b else Some x
  | [] => head b
  end.

(** [col !== xAxisKey] *)
Definition differs (xAxisKey : option JS.string) (col : JS.string) : bool :=
  negb (bool_decide (xAxisKey = Some col)).

(** The value of [chartConfig]; [None] is [null]. *)
Definition chartConfig (data : ResultSet number) (dimension : option JS.string)
    (metrics : list JS.string) : option ChartConfig :=
  match data with
  | [] => None
  | row0 :: _ =>
      let columns := keys row0 in
      let numericColumns := numericColumns data columns in
      let stringColumns := stringColumns data columns in
      let xAxisKey :=
        match dimension with
        | Some d => if JS.isEmpty d then firstOr stringColumns columns else Some d
        | None => firstOr stringColumns columns
        end in
      let yAxisKeys :=
        match metrics with
        | _ :: _ => metrics
        | [] =>
            let autoNumericKeys :=
              JSArray.slice (List.filter (differs xAxisKey) numericColumns) 0 3 in
            match autoNumericKeys with
            | _ :: _ => autoNumericKeys
            | [] => JSArray.slice (List.filter (differs xAxisKey) columns) 0 3
            end
        end in
      Some (mkChartConfig xAxisKey yAxisKeys)
  end.

(** What the component shows. *)
Inductive View :=
| NoData
| NoNumericData
| Chart (config : ChartConfig).

Definition view (data : ResultSet number) (dimension : option JS.string)
    (metrics : list JS.string) : View :=
  match chartConfig data dimension metrics with
  | None => NoData
  | Some config =>
      match yAxisKeys config with
      | [] => NoNumericData
      | _ :: _ => Chart config
      end
  end.

End ResultsChart.
End ResultsChart.

(** ** More to run *)

(** An engine that answers every statement with the same rows. *)
Definition answering {number : Type} (rows : Rows number)
    : JS.string -> unit -> outcome (Rows number) * unit :=
  fun _ e => (Resolved rows, e).

(** What the engine gives for a count: a BigInt. *)
Definition countRows : Rows Z := [ [(js "n", BigInt 2)] ].

(** A note and two SQL nodes that share the label [sales]; the first SQL
    node was never run. *)
Definition salesNote : @App.Node Z :=
  App.mkNode (js "1") (js "noteNode") None
    (App.mkData (Some (js "sales")) None None (Some (js "to do")) (Some false)).

Definition salesDraft : @App.Node Z :=
  App.mkNode (js "2") (js "sqlNode") None
    (App.mkData (Some (js "sales")) None (Some (js "SELECT 1")) None (Some false)).

Definition salesRun : @App.Node Z :=
  App.mkNode (js "3") (js "sqlNode") None
    (App.mkData (Some (js "sales")) (Some salesRows) (Some (js "SELECT 2")) None (Some false)).

(** Two rows, the second of which has neither column of the first; one
    column has the name of a member of [Object.prototype]. *)
Definition sparseRows : ResultSet Z :=
  [ [(js "toString", VNumber 1%Z); (js "total", VNumber 2%Z)]; [] ].

Definition sparseRefs : gmap JS.string (NodeData Z) :=
  {[ js "t" := mkNodeData (Some sparseRows) (js "t") ]}.

(** A node with the label [__proto__], run with rows. *)
Definition protoNode : NodeData Z := mkNodeData (Some salesRows) (js "__proto__").

Definition protoMatch : Match := mkMatch (js "{__proto__}") (js "__proto__").

(** * Properties *)

(** ** Strings *)

Lemma stripPrefix_app pat rest : JS.stripPrefix pat (pat ++ rest) = Some rest.
Proof.
  induction pat as [|p pat IH]; cbn [JS.stripPrefix app]; [done|].
  by rewrite N.eqb_refl.
Qed.

Lemma stripPrefix_Some pat s rest : JS.stripPrefix pat s = Some rest -> s = pat ++ rest.
Proof.
  revert s. induction pat as [|p pat IH]; intros s; cbn [JS.stripPrefix].
  - by intros [= ->].
  - destruct s as [|c s]; [done|].
    destruct (N.eqb_spec p c) as [->|]; [|done].
    intros H. by rewrite (IH _ H).
Qed.

Lemma getSubstitution_plain matched before after rep :
  JS.dollar ∉ rep -> JS.getSubstitution matched before after rep = rep.
Proof.
  induction rep as [|c rep IH]; [done|].
  intros [Hc Hrep]%not_elem_of_cons. cbn [JS.getSubstitution].
  destruct (N.eqb_spec c JS.dollar); [done|].
  by rewrite IH.
Qed.

Lemma sanitize_word s : Forall (fun c => JS.isWordChar c = true) (JS.sanitize s).
Proof.
  unfold JS.sanitize. apply Forall_forall. intros c [d [<- _]]%list_elem_of_In%in_map_iff.
  destruct (JS.isWordChar d) eqn:E; [done|]. reflexivity.
Qed.

Lemma sanitize_length s : length (JS.sanitize s) = length s.
Proof. unfold JS.sanitize. apply length_map. Qed.

(** A relation name is made of letters, digits and underscores. *)
Lemma tempTableName_word l : Forall (fun c => JS.isWordChar c = true) (tempTableName l).
Proof.
  unfold tempTableName. apply Forall_app. split; [|apply sanitize_word].
  repeat constructor.
Qed.

Lemma word_not c d : JS.isWordChar c = true -> JS.isWordChar d = false -> c ≠ d.
Proof. intros Hc Hd ->. congruence. Qed.

Lemma tempTableName_without l d : JS.isWordChar d = false -> d ∉ tempTableName l.
Proof.
  intros Hd Hin. pose proof (tempTableName_word l) as Hw.
  rewrite Forall_forall in Hw. specialize (Hw _ Hin). congruence.
Qed.

(** ** The scanner *)

(** With a brace open and no closing brace to come, all is plain text. *)
Lemma scan_open_unclosed acc s :
  JS.rbrace ∉ s -> scan (Some acc) s = List.map Text (JS.lbrace :: acc ++ s).
Proof.
  revert acc. induction s as [|c s IH]; intros acc Hs; cbn [scan].
  - by rewrite app_nil_r.
  - apply not_elem_of_cons in Hs as [Hc Hs].
    destruct (N.eqb_spec c JS.rbrace); [done|].
    rewrite IH by done. by rewrite <- app_assoc.
Qed.

(** With a brace open, the first closing brace decides: a reference when
    something lies in between, two plain braces otherwise. *)
Lemma scan_open_closed acc inner rest :
  JS.rbrace ∉ inner ->
  scan (Some acc) (inner ++ JS.rbrace :: rest) =
  match acc ++ inner with
  | [] => Text JS.lbrace :: Text JS.rbrace :: scan None rest
  | _ :: _ =>
      Ref (mkMatch (JS.lbrace :: (acc ++ inner) ++ [JS.rbrace]) (acc ++ inner))
      :: scan None rest
  end.
Proof.
  revert acc. induction inner as [|c inner IH]; intros acc Hin.
  - cbn [app scan]. rewrite N.eqb_refl, app_nil_r. by destruct acc.
  - apply not_elem_of_cons in Hin as [Hc Hin]. cbn [app scan].
    destruct (N.eqb_spec c JS.rbrace); [done|].
    rewrite IH by done. by rewrite <- app_assoc.
Qed.

(** A text has no closing brace, or a first one. *)
Lemma first_rbrace s :
  JS.rbrace ∉ s \/
  exists inner rest, s = inner ++ JS.rbrace :: rest /\ JS.rbrace ∉ inner.
Proof.
  induction s as [|c s IH].
  - left. apply not_elem_of_nil.
  - destruct (decide (c = JS.rbrace)) as [->|Hc].
    + right. exists [], s. split; [done|apply not_elem_of_nil].
    + destruct IH as [IH|(inner & rest & -> & Hin)].
      * left. by apply not_elem_of_cons.
      * right. exists (c :: inner), rest. split; [done|]. by apply not_elem_of_cons.
Qed.

(** The four cases of the scan from outside a brace; together they say that
    [scan None] reads the text as the regular expression does. *)
Lemma scan_text c s : c ≠ JS.lbrace -> scan None (c :: s) = Text c :: scan None s.
Proof. intros Hc. cbn [scan]. by destruct (N.eqb_spec c JS.lbrace). Qed.

Lemma scan_unclosed s :
  JS.rbrace ∉ s -> scan None (JS.lbrace :: s) = List.map Text (JS.lbrace :: s).
Proof. intros Hs. cbn [scan]. rewrite N.eqb_refl. by rewrite scan_open_unclosed. Qed.

Lemma scan_empty_braces rest :
  scan None (JS.lbrace :: JS.rbrace :: rest) =
  Text JS.lbrace :: Text JS.rbrace :: scan None rest.
Proof. cbn [scan]. by rewrite !N.eqb_refl. Qed.

Lemma scan_reference c inner rest :
  JS.rbrace ∉ c :: inner ->
  scan None (JS.lbrace :: (c :: inner) ++ JS.rbrace :: rest) =
  Ref (mkMatch (JS.lbrace :: (c :: inner) ++ [JS.rbrace]) (c :: inner)) :: scan None rest.
Proof.
  intros Hin. cbn [scan]. rewrite N.eqb_refl.
  change (c :: inner ++ JS.rbrace :: rest) with ((c :: inner) ++ JS.rbrace :: rest).
  by rewrite scan_open_closed.
Qed.

(** An induction that follows the four cases. *)
Lemma scan_cases_ind (P : JS.string -> Prop) :
  P [] ->
  (forall c s, c ≠ JS.lbrace -> P s -> P (c :: s)) ->
  (forall s, JS.rbrace ∉ s -> P (JS.lbrace :: s)) ->
  (forall rest, P rest -> P (JS.lbrace :: JS.rbrace :: rest)) ->
  (forall c inner rest, JS.rbrace ∉ c :: inner -> P rest ->
     P (JS.lbrace :: (c :: inner) ++ JS.rbrace :: rest)) ->
  forall s, P s.
Proof.
  intros Hnil Htext Hopen Hempty Href s.
  remember (length s) as n eqn:Hn. revert s Hn.
  induction n as [n IH] using lt_wf_ind. intros s ->.
  destruct s as [|c s]; [done|].
  destruct (decide (c = JS.lbrace)) as [->|Hc].
  - destruct (first_rbrace s) as [Hs|(inner & rest & -> & Hin)].
    + by apply Hopen.
    + destruct inner as [|d inner].
      * apply Hempty. apply (IH (length rest)); [simpl; lia|done].
      * apply Href; [done|].
        apply (IH (length rest)); [rewrite length_cons, length_app; simpl; lia|done].
  - apply Htext; [done|]. apply (IH (length s)); [simpl; lia|done].
Qed.

(** The segments are a cut of the text: their spans, in order, make it up. *)
Lemma scan_original s : concat (List.map original (scan None s)) = s.
Proof.
  induction s as [|c s Hc IH|s Hs|rest IH|c inner rest Hin IH] using scan_cases_ind.
  - done.
  - rewrite scan_text by done. cbn. by rewrite IH.
  - rewrite scan_unclosed by done. generalize (JS.lbrace :: s). intros l.
    induction l as [|x l IHl]; [done|]. cbn. by rewrite IHl.
  - rewrite scan_empty_braces. cbn. by rewrite IH.
  - rewrite scan_reference by done. cbn [List.map concat original raw].
    rewrite IH. cbn. by rewrite <- app_assoc.
Qed.

(** ** The rewriter *)

Lemma closed_app u v : closed u = true -> closed v = true -> closed (u ++ v) = true.
Proof.
  intros Hu Hv. induction u as [|c u IH]; [done|].
  cbn [closed app] in *. destruct (N.eqb_spec c JS.lbrace).
  - destruct u as [|d u]; [done|]. cbn [app].
    apply andb_true_iff in Hu as [Hd Hu]. rewrite Hd. cbn [andb]. by apply IH.
  - by apply IH.
Qed.

Lemma closed_without u : JS.lbrace ∉ u -> closed u = true.
Proof.
  induction u as [|c u IH]; [done|]. intros [Hc Hu]%not_elem_of_cons.
  cbn [closed]. destruct (N.eqb_spec c JS.lbrace); [done|]. by apply IH.
Qed.

Lemma closed_tempTableName l : closed (tempTableName l) = true.
Proof. apply closed_without, tempTableName_without. reflexivity. Qed.

Lemma closed_empty_braces : closed [JS.lbrace; JS.rbrace] = true.
Proof. reflexivity. Qed.

(** No reference starts inside a closed text: the scan passes over it. *)
Lemma scan_closed u s : closed u = true -> scan None (u ++ s) = List.map Text u ++ scan None s.
Proof.
  induction u as [|c u IH]; [done|]. cbn [closed]. intros Hu.
  destruct (N.eqb_spec c JS.lbrace) as [->|Hc].
  - destruct u as [|d u]; [done|].
    apply andb_true_iff in Hu as [Hd Hu]. apply N.eqb_eq in Hd as ->.
    specialize (IH Hu). cbn [app List.map] in *.
    rewrite scan_empty_braces.
    rewrite scan_text in IH by done. by injection IH as ->.
  - cbn [app List.map]. rewrite scan_text by done. by rewrite IH.
Qed.

Lemma replaceFrom_found before s pat rep after :
  JS.stripPrefix pat s = Some after ->
  JS.replaceFrom before s pat rep =
  before ++ JS.getSubstitution pat before after rep ++ after.
Proof. intros H. destruct s; cbn [JS.replaceFrom]; by rewrite H. Qed.

Lemma replaceFrom_next before c s pat rep :
  JS.stripPrefix pat (c :: s) = None ->
  JS.replaceFrom before (c :: s) pat rep = JS.replaceFrom (before ++ [c]) s pat rep.
Proof. intros H. cbn [JS.replaceFrom]. by rewrite H. Qed.

(** The text of a reference does not read anywhere inside a closed text, so
    its first occurrence after a closed text is the one that follows it. *)
Lemma replaceFrom_closed before u c p rest rep :
  closed u = true -> c ≠ JS.rbrace -> JS.dollar ∉ rep ->
  JS.replaceFrom before (u ++ (JS.lbrace :: c :: p) ++ rest) (JS.lbrace :: c :: p) rep =
  before ++ u ++ rep ++ rest.
Proof.
  intros Hu Hc Hrep. revert before Hu.
  induction u as [|a u IH]; intros before Hu.
  - rewrite app_nil_l.
    rewrite (replaceFrom_found _ _ _ _ rest) by apply stripPrefix_app.
    by rewrite getSubstitution_plain.
  - cbn [closed] in Hu. rewrite <- app_comm_cons.
    rewrite replaceFrom_next.
    + destruct (N.eqb_spec a JS.lbrace).
      * destruct u as [|d u]; [done|]. apply andb_true_iff in Hu as [_ Hu].
        rewrite IH by done. by rewrite <- !app_assoc.
      * rewrite IH by done. by rewrite <- !app_assoc.
    + cbn [JS.stripPrefix]. destruct (N.eqb_spec JS.lbrace a) as [<-|]; [|done].
      rewrite N.eqb_refl in Hu. destruct u as [|d u]; [done|].
      apply andb_true_iff in Hu as [Hd _]. apply N.eqb_eq in Hd as ->.
      cbn [app]. by destruct (N.eqb_spec c JS.rbrace).
Qed.

Lemma matchAll_text c s : c ≠ JS.lbrace -> matchAll (c :: s) = matchAll s.
Proof. intros Hc. unfold matchAll. by rewrite scan_text. Qed.

Lemma matchAll_unclosed s : JS.rbrace ∉ s -> matchAll (JS.lbrace :: s) = [].
Proof.
  intros Hs. unfold matchAll. rewrite scan_unclosed by done.
  generalize (JS.lbrace :: s). intros l. by induction l.
Qed.

Lemma matchAll_empty_braces rest :
  matchAll (JS.lbrace :: JS.rbrace :: rest) = matchAll rest.
Proof. unfold matchAll. by rewrite scan_empty_braces. Qed.

Lemma matchAll_reference c inner rest :
  JS.rbrace ∉ c :: inner ->
  matchAll (JS.lbrace :: (c :: inner) ++ JS.rbrace :: rest) =
  mkMatch (JS.lbrace :: (c :: inner) ++ [JS.rbrace]) (c :: inner) :: matchAll rest.
Proof. intros Hin. unfold matchAll. by rewrite scan_reference. Qed.

(** The loop of replacements, run on a query that follows a closed text,
    substitutes span by span. *)
Lemma rewriteLoop_closed s : forall u,
  closed u = true ->
  rewriteLoop (matchAll s) (u ++ s) = u ++ substituteSpans s.
Proof.
  unfold substituteSpans.
  induction s as [|c s Hc IH|s Hs|rest IH|c inner rest Hin IH] using scan_cases_ind;
    intros u Hu.
  - done.
  - rewrite matchAll_text, scan_text by done. cbn [List.map concat substituted].
    rewrite (cons_middle c u s), app_assoc, IH.
    + by rewrite <- app_assoc.
    + apply closed_app; [done|]. apply closed_without.
      apply not_elem_of_cons. split; [done|apply not_elem_of_nil].
  - rewrite matchAll_unclosed, scan_unclosed by done. cbn [rewriteLoop]. f_equal.
    generalize (JS.lbrace :: s). intros l. induction l as [|x l IHl]; [done|].
    cbn. by rewrite <- IHl.
  - rewrite matchAll_empty_braces, scan_empty_braces.
    cbn [List.map concat substituted].
    change (u ++ JS.lbrace :: JS.rbrace :: rest) with (u ++ [JS.lbrace; JS.rbrace] ++ rest).
    rewrite app_assoc, IH.
    + by rewrite <- app_assoc.
    + by apply closed_app.
  - rewrite matchAll_reference, scan_reference by done.
    cbn [rewriteLoop List.map concat substituted raw]. unfold JS.replace.
    set (name := tempTableName _).
    replace (u ++ JS.lbrace :: (c :: inner) ++ JS.rbrace :: rest)
      with (u ++ (JS.lbrace :: c :: inner ++ [JS.rbrace]) ++ rest)
      by (cbn; by rewrite <- app_assoc).
    apply not_elem_of_cons in Hin as [Hc Hin].
    change (JS.lbrace :: (c :: inner) ++ [JS.rbrace])
      with (JS.lbrace :: c :: inner ++ [JS.rbrace]).
    rewrite (replaceFrom_closed [] u c (inner ++ [JS.rbrace]) rest name); [|done..|].
    + rewrite app_nil_l, app_assoc, IH; [by rewrite <- app_assoc|].
      apply closed_app; [done|apply closed_tempTableName].
    + apply tempTableName_without. reflexivity.
Qed.

(** The scan of the substituted text finds plain text only. *)
Lemma scan_substituteSpans s :
  scan None (substituteSpans s) = List.map Text (substituteSpans s).
Proof.
  unfold substituteSpans.
  induction s as [|c s Hc IH|s Hs|rest IH|c inner rest Hin IH] using scan_cases_ind.
  - done.
  - rewrite (scan_text c s) by done. cbn [List.map concat substituted app].
    rewrite scan_text by done. by rewrite IH.
  - rewrite (scan_unclosed s) by done.
    replace (concat (List.map substituted (List.map Text (JS.lbrace :: s))))
      with (JS.lbrace :: s).
    + by apply scan_unclosed.
    + generalize (JS.lbrace :: s). intros l. induction l as [|x l IHl]; [done|].
      cbn. by rewrite <- IHl.
  - rewrite (scan_empty_braces rest). cbn [List.map concat substituted app].
    rewrite scan_empty_braces. by rewrite IH.
  - rewrite (scan_reference c inner rest) by done.
    cbn [List.map concat substituted].
    rewrite scan_closed by apply closed_tempTableName.
    by rewrite IH, map_app.
Qed.

(** C6: for every query text, the loop of replacements puts the generated
    relation name in the place of every scanned occurrence, repeats and
    whitespace variants included, each exactly once and nothing else: the
    segments of the scan make up the query, the rewritten query is the same
    sequence of segments with every reference replaced by its name, and a new
    scan of the rewritten query finds no reference. *)
Theorem rewrite_replaces_every_occurrence (sql : JS.string) :
  concat (List.map original (scan None sql)) = sql /\
  rewrite sql = concat (List.map substituted (scan None sql)) /\
  matchAll (rewrite sql) = [].
Proof.
  split; [apply scan_original|].
  assert (rewrite sql = substituteSpans sql) as Hrw.
  { unfold rewrite. exact (rewriteLoop_closed sql [] eq_refl). }
  split; [exact Hrw|].
  rewrite Hrw. unfold matchAll. rewrite scan_substituteSpans.
  generalize (substituteSpans sql). intros l. by induction l.
Qed.

(** ** The server *)

Section ServerProperties.
Context {number Engine : Type}.
Variable numberToString : number -> JS.string.
Variable conn_all : JS.string -> Engine -> outcome (Rows number) * Engine.

Local Abbreviation materialize := (Server.materialize numberToString conn_all).
Local Abbreviation dropTable := (Server.dropTable conn_all).
Local Abbreviation cleanup := (Server.cleanup conn_all).
Local Abbreviation pipeline := (Server.pipeline numberToString conn_all).
Local Abbreviation handler := (Server.handler numberToString conn_all).
Local Abbreviation execution := (execution numberToString conn_all).
Local Abbreviation dropAll := (dropAll conn_all).

Lemma forOf_app {S A} (xs ys : list A) (body : A -> M S unit) (s : S) :
  forOf (xs ++ ys) body s =
  match forOf xs body s with
  | (Resolved _, s') => forOf ys body s'
  | (Rejected err, s') => (Rejected err, s')
  end.
Proof.
  revert s. induction xs as [|x xs IH]; intros s; [done|].
  cbn [app forOf]. unfold bind.
  destruct (body x s) as [[[]|err] s']; [apply IH|done].
Qed.

(** A turn of the cleanup loop never throws. *)
Lemma dropTable_resolves t st :
  dropTable t st =
  (Resolved tt, Server.mkState (snd (conn_all (Server.dropTableSQL t) (Server.conn st)))
                               (Server.tempTables st)).
Proof.
  unfold Server.dropTable, tryCatch, bind, Server.db, Database.runQuery, ret.
  by destruct (conn_all _ _) as [[rows|err] e'].
Qed.

Lemma forOf_dropTable ts st :
  forOf ts dropTable st =
  (Resolved tt, Server.mkState (dropAll ts (Server.conn st)) (Server.tempTables st)).
Proof.
  revert st. induction ts as [|t ts IH]; intros st; cbn [forOf].
  - by destruct st.
  - unfold bind. rewrite dropTable_resolves. by rewrite IH.
Qed.

(** Neither does the loop. *)
Lemma cleanup_resolves st : cleanup st = (Resolved tt, cleaned conn_all st).
Proof. unfold Server.cleanup. apply forOf_dropTable. Qed.

(** The inner [try] and its [catch], then the outer [catch]: the answer
    is set by the outcome of [execution], and the cleanup loop runs once,
    or twice when [res.json] throws. *)
Lemma handler_outcome sql references st :
  JS.isEmpty sql = false ->
  handler sql references st =
  (Resolved (answerTo (execution sql references st).1),
   cleanedTimes conn_all (rounds (execution sql references st).1)
     (execution sql references st).2).
Proof.
  intros Hsql. unfold Server.handler, Server.pipeline, tryCatch. rewrite Hsql.
  unfold execution, bind, rewrite.
  destruct (forOf _ _ st) as [[[]|err] st1]; cbn [fst snd].
  - destruct (Server.db _ st1) as [[rows|err] st2]; cbn [fst snd answerTo rounds].
    + rewrite cleanup_resolves. unfold Server.json.
      destruct (toJSON rows) as [data|]; [done|].
      unfold throw. by rewrite cleanup_resolves.
    + by rewrite cleanup_resolves.
  - by rewrite cleanup_resolves.
Qed.

Lemma materialize_unresolved references m st :
  resolve references m = None ->
  materialize references m st = (Rejected (mkError (Server.noResults (nodeLabel m))), st).
Proof.
  unfold resolve, Server.materialize. intros H.
  destruct (references !! nodeLabel m) as [d|]; [|done].
  by destruct (results d) as [[|row0 rows]|].
Qed.

Lemma materialize_resolved references m st row0 rows :
  resolve references m = Some (row0, rows) ->
  materialize references m st =
  let tempTables := Server.tempTables st ++ [tempTableName (nodeLabel m)] in
  match conn_all (Server.createStatement numberToString (nodeLabel m) row0 rows)
          (Server.conn st) with
  | (Resolved _, e') => (Resolved tt, Server.mkState e' tempTables)
  | (Rejected err, e') => (Rejected err, Server.mkState e' tempTables)
  end.
Proof.
  unfold resolve, Server.materialize. intros H.
  destruct (references !! nodeLabel m) as [d|]; [|done].
  destruct (results d) as [[|r0 rs]|]; [done| |done].
  injection H as <- <-.
  unfold bind, Server.push, Server.db, Database.runQuery, ret. cbn.
  by destruct (conn_all _ _) as [[rs'|err] e'].
Qed.

(** The loop that materializes, whatever its end: it took a prefix of
    the matches, each of them resolved, and pushed one name for each. *)
Lemma materialize_loop references ms st r st' :
  forOf ms (materialize references) st = (r, st') ->
  exists attempted,
    attempted `prefix_of` ms /\
    Forall (fun m => is_Some (resolve references m)) attempted /\
    Server.tempTables st' =
      Server.tempTables st ++ List.map (fun m => tempTableName (nodeLabel m)) attempted /\
    (r = Resolved tt -> attempted = ms).
Proof.
  revert st. induction ms as [|m ms IH]; intros st; cbn [forOf].
  - intros [= <- <-]. exists []. rewrite app_nil_r. by repeat split.
  - unfold bind. destruct (resolve references m) as [[row0 rows]|] eqn:Hm.
    + rewrite (materialize_resolved _ _ _ _ _ Hm). cbn zeta.
      destruct (conn_all _ _) as [[rs|err] e'].
      * intros (attempted & Hpre & Hall & Htt & Hr)%IH.
        exists (m :: attempted). split; [by apply prefix_cons|].
        split; [constructor; [by rewrite Hm|done]|].
        split; [|by intros ->%Hr].
        rewrite Htt. cbn. by rewrite <- app_assoc.
      * intros [= <- <-]. exists [m].
        split; [apply prefix_cons, prefix_nil|].
        split; [constructor; [by rewrite Hm|done]|]. by split.
    + rewrite (materialize_unresolved _ _ _ Hm). intros [= <- <-].
      exists []. rewrite app_nil_r. split; [apply prefix_nil|]. by repeat split.
Qed.

Lemma queryLocalWithReferences_plain sql references e :
  matchAll sql = [] ->
  Server.queryLocalWithReferences numberToString conn_all sql references e =
  Server.queryLocal conn_all sql e.
Proof.
  intros Hms. unfold Server.queryLocalWithReferences, Server.queryLocal.
  destruct (JS.isEmpty sql) eqn:Hsql.
  - unfold Server.handler, tryCatch. by rewrite Hsql.
  - rewrite handler_outcome by done. unfold execution, rewrite, tryCatch, bind.
    rewrite Hms. cbn [forOf rewriteLoop]. unfold ret, throw, Server.db, Server.json.
    cbn [Server.conn Server.tempTables].
    destruct (Database.executeSQL conn_all sql e) as [[rows|err] e'];
      cbn [fst snd answerTo rounds]; [|done].
    by destruct (toJSON rows).
Qed.

(** C9: a failure while dropping a relation never reaches the caller. The
    answer of the with-references route is the outcome of the inner [try]
    block up to the cleanup - the rows when the materialization and the
    query succeeded and [res.json] can send them, the message of the first
    error otherwise - whatever the engine answers to the [DROP TABLE]
    statements that follow. *)
Theorem cleanup_failure_not_escalated sql references e :
  fst (Server.queryLocalWithReferences numberToString conn_all sql references e) =
  Resolved
    (if JS.isEmpty sql then BadRequest (js "SQL query is required")
     else
       match fst (execution sql references (Server.mkState e [])) with
       | Resolved rows =>
           match toJSON rows with
           | Some data => Data data
           | None => Failure (js "Do not know how to serialize a BigInt")
           end
       | Rejected err => Failure (message err)
       end).
Proof.
  unfold Server.queryLocalWithReferences.
  destruct (JS.isEmpty sql) eqn:Hsql.
  - unfold Server.handler, tryCatch. by rewrite Hsql.
  - by rewrite handler_outcome.
Qed.

End ServerProperties.

(** ** The statements a request sends *)

Section Statements.
Context {number Engine : Type}.
Variable numberToString : number -> JS.string.
Variable conn_all : JS.string -> Engine -> outcome (Rows number) * Engine.

Local Abbreviation materialize := (Server.materialize numberToString (traced conn_all)).
Local Abbreviation handler := (Server.handler numberToString (traced conn_all)).
Local Abbreviation name := (fun m => tempTableName (nodeLabel m)).
Local Abbreviation sent := (fun st : Server.State => snd (Server.conn st)).

Lemma traced_sent sql e log :
  snd (snd (traced conn_all sql (e, log))) = log ++ [sql].
Proof. unfold traced. by destruct (conn_all sql e). Qed.

Lemma dropAll_sent ts e log :
  snd (dropAll (traced conn_all) ts (e, log)) = log ++ List.map Server.dropTableSQL ts.
Proof.
  revert e log. induction ts as [|t ts IH]; intros e log; cbn [dropAll fold_left List.map].
  - by rewrite app_nil_r.
  - unfold dropAll in IH. unfold traced at 2. destruct (conn_all _ e) as [r e']. cbn [snd].
    rewrite IH. by rewrite <- app_assoc.
Qed.

(** The loop that materializes sends one [CREATE] for each match it
    takes, and nothing else. *)
Lemma materialize_loop_sent references ms st r st' :
  forOf ms (materialize references) st = (r, st') ->
  exists attempted stmts,
    attempted `prefix_of` ms /\
    Forall2 (fun m stmt => createOf numberToString references m = Some stmt) attempted stmts /\
    Server.tempTables st' = Server.tempTables st ++ List.map name attempted /\
    sent st' = sent st ++ stmts /\
    (r = Resolved tt -> attempted = ms).
Proof.
  revert st. induction ms as [|m ms IH]; intros st; cbn [forOf].
  - intros [= <- <-]. exists [], []. rewrite !app_nil_r. by repeat split.
  - unfold bind. destruct (resolve references m) as [[row0 rows]|] eqn:Hm.
    + rewrite (materialize_resolved _ _ _ _ _ _ _ Hm). cbn zeta.
      destruct st as [[e log] ts]. cbn [Server.conn Server.tempTables traced].
      destruct (conn_all _ e) as [[rs|err] e'].
      * intros (attempted & stmts & Hpre & Hall & Htt & Hlog & Hr)%IH.
        cbn [Server.conn Server.tempTables snd] in *.
        exists (m :: attempted), (Server.createStatement numberToString (nodeLabel m) row0 rows :: stmts).
        split; [by apply prefix_cons|].
        split; [constructor; [unfold createOf; by rewrite Hm|done]|].
        split; [rewrite Htt; cbn; by rewrite <- app_assoc|].
        split; [rewrite Hlog; by rewrite <- app_assoc|].
        by intros ->%Hr.
      * intros [= <- <-]. exists [m], [Server.createStatement numberToString (nodeLabel m) row0 rows].
        split; [apply prefix_cons, prefix_nil|].
        split; [constructor; [unfold createOf; by rewrite Hm|done]|]. by repeat split.
    + rewrite (materialize_unresolved _ _ _ _ _ Hm). intros [= <- <-].
      exists [], []. rewrite !app_nil_r. split; [apply prefix_nil|]. by repeat split.
Qed.

Lemma cleaned_sent (st : Server.State) :
  sent (cleaned (traced conn_all) st) =
  sent st ++ List.map Server.dropTableSQL (Server.tempTables st).
Proof. destruct st as [[e log] ts]. apply dropAll_sent. Qed.

Lemma cleaned_tempTables {E} (c : JS.string -> E -> outcome (Rows number) * E) st :
  Server.tempTables (cleaned c st) = Server.tempTables st.
Proof. done. Qed.

Lemma cleanedTimes_tempTables {E} (c : JS.string -> E -> outcome (Rows number) * E) n st :
  Server.tempTables (cleanedTimes c n st) = Server.tempTables st.
Proof. induction n as [|n IH]; [done|]. cbn. exact IH. Qed.

(** Every round of the cleanup sends the same drops. *)
Lemma cleanedTimes_sent n (st : Server.State) :
  sent (cleanedTimes (traced conn_all) n st) =
  sent st ++ concat (replicate n (List.map Server.dropTableSQL (Server.tempTables st))).
Proof.
  induction n as [|n IH]; cbn [replicate concat].
  - by rewrite app_nil_r.
  - change (cleanedTimes (traced conn_all) (S n) st)
      with (cleaned (traced conn_all) (cleanedTimes (traced conn_all) n st)).
    rewrite cleaned_sent, IH, cleanedTimes_tempTables.
    rewrite <- !app_assoc. f_equal.
    clear IH. induction n as [|n IH]; cbn [replicate concat]; [by rewrite app_nil_r|].
    by rewrite <- app_assoc, IH.
Qed.

(** What the inner [try] sends before the cleanup: a [CREATE] for each
    match taken, then the rewritten query when every creation succeeded
    and the query is not blank. *)
Lemma execution_sent sql references e log :
  exists attempted stmts query,
    attempted `prefix_of` matchAll sql /\
    Forall2 (fun m stmt => createOf numberToString references m = Some stmt) attempted stmts /\
    (query = [] \/ query = [JS.trim (rewrite sql)]) /\
    let st' := (execution numberToString (traced conn_all) sql references
                  (Server.mkState (e, log) [])).2 in
    Server.tempTables st' = List.map name attempted /\
    sent st' = log ++ stmts ++ query.
Proof.
  unfold execution, bind.
  destruct (forOf _ _ _) as [r st1] eqn:Hloop.
  apply materialize_loop_sent in Hloop
    as (attempted & stmts & Hpre & Hall & Htt & Hlog & Hr).
  cbn [Server.conn Server.tempTables snd app] in Htt, Hlog.
  exists attempted, stmts.
  destruct r as [[]|err].
  - unfold Server.db, Database.executeSQL, Database.runQuery.
    destruct (JS.isEmpty (JS.trim (rewrite sql))) eqn:Hq.
    + exists []. repeat split; [done..|left; done| |]; cbn [throw snd Server.tempTables Server.conn].
      * done.
      * by rewrite Hlog, app_nil_r.
    + exists [JS.trim (rewrite sql)]. repeat split; [done..|right; done| |];
        destruct st1 as [[e1 log1] ts1]; cbn [Server.conn traced];
        destruct (conn_all _ e1) as [[rows|err] e2]; cbn [snd Server.conn Server.tempTables];
        cbn in Htt, Hlog.
      all: rewrite ?Hlog, ?Htt, <- ?app_assoc; done.
  - exists []. repeat split; [done..|left; done| |]; cbn [snd].
    + done.
    + by rewrite Hlog, app_nil_r.
Qed.

(** All that a request sends: a [CREATE] for each match taken, the
    rewritten query when every creation succeeded and the query is not
    blank, then a [DROP] for each name of [tempTables], and these drops a
    second time when [res.json] threw. *)
Lemma handler_sent sql references e log :
  JS.isEmpty sql = false ->
  exists attempted stmts query,
    attempted `prefix_of` matchAll sql /\
    Forall2 (fun m stmt => createOf numberToString references m = Some stmt) attempted stmts /\
    (query = [] \/ query = [JS.trim (rewrite sql)]) /\
    let r := (execution numberToString (traced conn_all) sql references
                (Server.mkState (e, log) [])).1 in
    let st' := snd (handler sql references (Server.mkState (e, log) [])) in
    Server.tempTables st' = List.map name attempted /\
    sent st' = log ++ stmts ++ query
               ++ concat (replicate (rounds r)
                            (List.map Server.dropTableSQL (List.map name attempted))).
Proof.
  intros Hsql.
  destruct (execution_sent sql references e log)
    as (attempted & stmts & query & Hpre & Hall & Hq & Htt & Hlog).
  exists attempted, stmts, query. repeat split; [done..| |]; cbn zeta in *;
    rewrite handler_outcome by done; cbn [snd].
  - by rewrite cleanedTimes_tempTables.
  - rewrite cleanedTimes_sent, Hlog, Htt. by rewrite <- !app_assoc.
Qed.


Lemma matchAll_isEmpty sql : matchAll sql ≠ [] -> JS.isEmpty sql = false.
Proof. by destruct sql. Qed.

(** When every match resolves, the loop that materializes ends early
    only where the engine refuses a creation: the last statement sent is
    that creation, and the error is the engine's. *)
Lemma materialize_loop_refused references ms st err st' :
  Forall (fun m => is_Some (resolve references m)) ms ->
  forOf ms (materialize references) st = (Rejected err, st') ->
  exists attempted stmts stmt e1,
    attempted `prefix_of` ms /\
    Forall2 (fun m stmt => createOf numberToString references m = Some stmt) attempted stmts /\
    Server.tempTables st' = Server.tempTables st ++ List.map name attempted /\
    sent st' = sent st ++ stmts /\
    last stmts = Some stmt /\
    fst (conn_all stmt e1) = Rejected err.
Proof.
  intros Hall. revert st. induction Hall as [|m ms [[row0 rows] Hm] _ IH]; intros st; cbn [forOf].
  - done.
  - unfold bind. rewrite (materialize_resolved _ _ _ _ _ _ _ Hm). cbn zeta.
    destruct st as [[e log] ts]. cbn [Server.conn Server.tempTables traced].
    destruct (conn_all _ e) as [[rs|err'] e'] eqn:He.
    + intros (attempted & stmts & stmt & e1 & Hpre & Hcr & Htt & Hlog & Hlast & Hrefused)%IH.
      cbn [Server.conn Server.tempTables snd] in *.
      exists (m :: attempted),
        (Server.createStatement numberToString (nodeLabel m) row0 rows :: stmts), stmt, e1.
      split; [by apply prefix_cons|].
      split; [constructor; [unfold createOf; by rewrite Hm|done]|].
      split; [rewrite Htt; cbn; by rewrite <- app_assoc|].
      split; [rewrite Hlog; by rewrite <- app_assoc|].
      split; [|done]. destruct stmts; [done|]. exact Hlast.
    + intros [= <- <-].
      exists [m], [Server.createStatement numberToString (nodeLabel m) row0 rows],
        (Server.createStatement numberToString (nodeLabel m) row0 rows), e.
      split; [apply prefix_cons, prefix_nil|].
      split; [constructor; [unfold createOf; by rewrite Hm|done]|].
      repeat split. by rewrite He.
Qed.

(** The first label that does not resolve, after matches that resolve.
    When the engine accepted the creations of the matches before it, the
    request fails with the message for that label; when it refused one,
    the request has failed there, with the error of the engine. Either
    way the request has sent the creations of matches before the label,
    then their drops, and nothing else. *)
Lemma unresolved_sent sql references e log pre m post :
  matchAll sql = pre ++ m :: post ->
  Forall (fun m' => is_Some (resolve references m')) pre ->
  resolve references m = None ->
  exists attempted stmts,
    attempted `prefix_of` pre /\
    Forall2 (fun m stmt => createOf numberToString references m = Some stmt) attempted stmts /\
    snd (snd (Server.queryLocalWithReferences numberToString (traced conn_all) sql references (e, log))) =
      log ++ stmts ++ List.map Server.dropTableSQL (List.map name attempted) /\
    match fst (forOf pre (materialize references) (Server.mkState (e, log) [])) with
    | Resolved _ =>
        attempted = pre /\
        fst (Server.queryLocalWithReferences numberToString (traced conn_all) sql references (e, log)) =
          Resolved (Failure (Server.noResults (nodeLabel m)))
    | Rejected err =>
        fst (Server.queryLocalWithReferences numberToString (traced conn_all) sql references (e, log)) =
          Resolved (Failure (message err)) /\
        exists stmt e1, last stmts = Some stmt /\ fst (conn_all stmt e1) = Rejected err
    end.
Proof.
  intros Hms Hall Hm.
  assert (JS.isEmpty sql = false) as Hsql.
  { apply matchAll_isEmpty. rewrite Hms. by destruct pre. }
  unfold Server.queryLocalWithReferences. rewrite handler_outcome by done.
  unfold execution, bind. rewrite Hms, forOf_app.
  destruct (forOf pre _ _) as [[[]|err] st1] eqn:Hpre; cbn [fst snd].
  - cbn [forOf]. unfold bind. rewrite (materialize_unresolved _ _ _ _ _ Hm).
    cbn [fst snd answerTo rounds message].
    apply materialize_loop_sent in Hpre
      as (attempted & stmts & _ & Hcr & Htt & Hlog & Hr).
    rewrite (Hr eq_refl) in *. cbn [Server.conn Server.tempTables snd app] in Htt, Hlog.
    exists pre, stmts. split; [done|]. split; [done|]. split; [|done].
    pose proof (cleanedTimes_sent 1 st1) as Hsent. cbn beta in Hsent.
    rewrite Hsent. cbn [replicate concat].
    by rewrite Hlog, Htt, app_nil_r, <- app_assoc.
  - cbn [fst snd answerTo rounds].
    apply (materialize_loop_refused _ _ _ _ _ Hall) in Hpre
      as (attempted & stmts & stmt & e1 & Hprefix & Hcr & Htt & Hlog & Hlast & Hrefused).
    cbn [Server.conn Server.tempTables snd app] in Htt, Hlog.
    exists attempted, stmts. split; [done|]. split; [done|]. split; [|by eauto].
    pose proof (cleanedTimes_sent 1 st1) as Hsent. cbn beta in Hsent.
    rewrite Hsent. cbn [replicate concat].
    by rewrite Hlog, Htt, app_nil_r, <- app_assoc.
Qed.

End Statements.

(** ** Tracing changes nothing *)

Section Erasure.
Context {number Engine : Type}.
Variable numberToString : number -> JS.string.
Variable conn_all : JS.string -> Engine -> outcome (Rows number) * Engine.

Local Abbreviation TState := (@Server.State (Engine * list JS.string)).

Lemma untraced_ret {A} (a : A) : untraced (Engine := Engine) (ret a) (ret a).
Proof. by intros st. Qed.

Lemma untraced_throw {A} err : untraced (Engine := Engine) (A := A) (throw err) (throw err).
Proof. by intros st. Qed.

Lemma untraced_bind {A B} mt m (kt : A -> M TState B) k :
  untraced mt m -> (forall a, untraced (kt a) (k a)) ->
  untraced (bind mt kt) (bind m k).
Proof.
  intros Hm Hk st. unfold bind. rewrite Hm.
  destruct (mt st) as [[a|err] st']; [apply Hk|done].
Qed.

Lemma untraced_tryCatch {A} mt m (ht : Error -> M TState A) h :
  untraced mt m -> (forall err, untraced (ht err) (h err)) ->
  untraced (tryCatch mt ht) (tryCatch m h).
Proof.
  intros Hm Hh st. unfold tryCatch. rewrite Hm.
  destruct (mt st) as [[a|err] st']; [done|apply Hh].
Qed.

Lemma untraced_forOf {X} (xs : list X) (bt : X -> M TState unit) b :
  (forall x, untraced (bt x) (b x)) -> untraced (forOf xs bt) (forOf xs b).
Proof.
  intros Hb. induction xs as [|x xs IH]; cbn [forOf]; [apply untraced_ret|].
  apply untraced_bind; [apply Hb|done].
Qed.

Lemma untraced_runQuery sql :
  untraced (Server.db (Database.runQuery (traced conn_all) sql))
    (Server.db (Database.runQuery conn_all sql)).
Proof.
  intros [[e log] ts]. unfold Server.db, Database.runQuery, erase, traced. cbn [Server.conn fst].
  by destruct (conn_all sql e) as [r e'].
Qed.

Lemma untraced_executeSQL sql :
  untraced (Server.db (Database.executeSQL (traced conn_all) sql))
    (Server.db (Database.executeSQL conn_all sql)).
Proof.
  unfold Database.executeSQL. destruct (JS.isEmpty (JS.trim sql)).
  - by intros [[e log] ts].
  - apply untraced_runQuery.
Qed.

Lemma untraced_materialize references m :
  untraced (Server.materialize numberToString (traced conn_all) references m)
    (Server.materialize numberToString conn_all references m).
Proof.
  unfold Server.materialize. destruct (references !! nodeLabel m) as [d|];
    [|apply untraced_throw].
  destruct (results d) as [[|row0 rows]|]; try apply untraced_throw.
  apply untraced_bind; [by intros st|]. intros _.
  apply untraced_bind; [apply untraced_runQuery|]. intros _. apply untraced_ret.
Qed.

Lemma untraced_cleanup :
  untraced (Server.cleanup (traced conn_all)) (Server.cleanup conn_all).
Proof.
  intros st. unfold Server.cleanup.
  change (Server.tempTables (erase st)) with (Server.tempTables st).
  apply untraced_forOf. intros t. unfold Server.dropTable.
  apply untraced_tryCatch; [|intros _; apply untraced_ret].
  apply untraced_bind; [apply untraced_runQuery|]. intros _. apply untraced_ret.
Qed.

Lemma untraced_json (rows : Rows number) :
  untraced (Engine := Engine) (Server.json rows) (Server.json rows).
Proof.
  unfold Server.json. destruct (toJSON rows); [apply untraced_ret|apply untraced_throw].
Qed.

Lemma untraced_handler sql references :
  untraced (Server.handler numberToString (traced conn_all) sql references)
    (Server.handler numberToString conn_all sql references).
Proof.
  unfold Server.handler. apply untraced_tryCatch; [|intros err; apply untraced_ret].
  destruct (JS.isEmpty sql); [apply untraced_ret|]. unfold Server.pipeline.
  apply untraced_tryCatch.
  - apply untraced_bind; [apply untraced_forOf, untraced_materialize|]. intros _.
    apply untraced_bind; [apply untraced_executeSQL|]. intros rows.
    apply untraced_bind; [apply untraced_cleanup|]. intros _. apply untraced_json.
  - intros err. apply untraced_bind; [apply untraced_cleanup|]. intros _.
    apply untraced_throw.
Qed.

(** The route answers the same, and leaves the engine the same, with and
    without the trace. *)
Lemma queryLocalWithReferences_untraced sql references e log :
  Server.queryLocalWithReferences numberToString conn_all sql references e =
  let '(r, (e', _)) :=
    Server.queryLocalWithReferences numberToString (traced conn_all) sql references (e, log) in
  (r, e').
Proof.
  unfold Server.queryLocalWithReferences.
  pose proof (untraced_handler sql references (Server.mkState (e, log) [])) as H.
  unfold erase in H. cbn [Server.conn Server.tempTables fst] in H. rewrite H.
  by destruct (Server.handler _ (traced conn_all) _ _ _) as [r [[e' log'] ts']].
Qed.

End Erasure.

(** ** The catalog of the engine *)

Section Catalog.
Context {number Engine : Type}.
Variable numberToString : number -> JS.string.
Variable conn_all : JS.string -> Engine -> outcome (Rows number) * Engine.
Variable tables : Engine -> gset JS.string.

Local Abbreviation materialize := (Server.materialize numberToString conn_all).
Local Abbreviation name := (fun m => tempTableName (nodeLabel m)).
Local Abbreviation word := (Forall (fun c => JS.isWordChar c = true)).

Lemma dropAll_tables ts e :
  standardDDL conn_all tables -> Forall word ts ->
  tables (dropAll conn_all ts e) = tables e ∖ list_to_set ts.
Proof.
  intros [_ Hdrop] Hts. revert e.
  induction Hts as [|t ts Ht Hts IH]; intros e; cbn [dropAll fold_left list_to_set].
  - set_solver.
  - unfold dropAll in IH. rewrite IH.
    specialize (Hdrop t e Ht). destruct (conn_all _ e) as [[rows|err] e']; cbn [snd].
    + rewrite Hdrop. set_solver.
    + destruct Hdrop as [Hnot ->]. set_solver.
Qed.

(** The loop that materializes adds to the catalog, and only names that
    it has pushed. *)
Lemma materialize_loop_tables references ms st r st' :
  standardDDL conn_all tables ->
  forOf ms (materialize references) st = (r, st') ->
  tables (Server.conn st) ⊆ tables (Server.conn st') /\
  (forall t, t ∈ Server.tempTables st -> t ∈ Server.tempTables st') /\
  (forall t, t ∈ tables (Server.conn st') ->
             t ∈ tables (Server.conn st) \/ t ∈ Server.tempTables st').
Proof.
  intros [Hcreate _]. revert st. induction ms as [|m ms IH]; intros st; cbn [forOf].
  - intros [= <- <-]. by auto.
  - unfold bind. destruct (resolve references m) as [[row0 rows]|] eqn:Hm.
    + rewrite (materialize_resolved _ _ _ _ _ _ _ Hm). cbn zeta.
      unfold Server.createStatement.
      specialize (Hcreate (tempTableName (nodeLabel m))
                    (Server.valuesOf numberToString (keys row0) rows)
                    (Server.columnAliases (keys row0)) (Server.conn st)
                    (tempTableName_word _)).
      destruct (conn_all _ _) as [[rs|err] e'].
      * intros (H1 & H2 & H3)%IH. cbn [Server.conn Server.tempTables] in *.
        split; [set_solver|]. split; [set_solver|].
        intros t [Ht|Ht]%H3; [|by right].
        rewrite Hcreate in Ht. apply elem_of_union in Ht as [->%elem_of_singleton|Ht].
        -- right. apply H2. set_solver.
        -- by left.
      * intros [= <- <-]. cbn [Server.conn Server.tempTables].
        split; [set_solver|]. split; [set_solver|]. intros t Ht. left. by rewrite <- Hcreate.
    + rewrite (materialize_unresolved _ _ _ _ _ Hm). intros [= <- <-]. by auto.
Qed.

(** A second round of drops leaves the catalog as the first one made it. *)
Lemma cleanedTimes_tables n st :
  standardDDL conn_all tables -> Forall word (Server.tempTables st) ->
  tables (Server.conn (cleanedTimes conn_all (S n) st)) =
  tables (Server.conn st) ∖ list_to_set (Server.tempTables st).
Proof.
  intros Hddl Hts. induction n as [|n IH].
  - cbn. by apply dropAll_tables.
  - change (cleanedTimes conn_all (S (S n)) st)
      with (cleaned conn_all (cleanedTimes conn_all (S n) st)).
    unfold cleaned at 1. cbn [Server.conn].
    rewrite dropAll_tables; [|done|by rewrite cleanedTimes_tempTables].
    rewrite IH, cleanedTimes_tempTables. set_solver.
Qed.

(** With the usual semantics of [CREATE] and [DROP], names that were free
    before the request, and a query that leaves the catalog alone, the
    catalog after the request is the catalog before it. *)
Lemma catalog_restored sql references e :
  standardDDL conn_all tables ->
  (forall m, m ∈ matchAll sql -> name m ∉ tables e) ->
  (forall e1, tables (snd (conn_all (JS.trim (rewrite sql)) e1)) = tables e1) ->
  tables (snd (Server.queryLocalWithReferences numberToString conn_all sql references e))
  = tables e.
Proof.
  intros Hddl Hfresh Hquery. unfold Server.queryLocalWithReferences.
  destruct (JS.isEmpty sql) eqn:Hsql.
  { unfold Server.handler, tryCatch. by rewrite Hsql. }
  rewrite handler_outcome by done. cbn [snd].
  assert (exists n, rounds (execution numberToString conn_all sql references
                              (Server.mkState e [])).1 = S n) as [n ->].
  { destruct (execution _ _ _ _ _).1 as [rows|err]; cbn [rounds]; [|by eexists].
    destruct (toJSON rows); by eexists. }
  unfold execution, bind.
  destruct (forOf _ _ _) as [r st1] eqn:Hloop.
  pose proof (materialize_loop_tables _ _ _ _ _ Hddl Hloop) as (Hsub & _ & Hsup).
  apply materialize_loop in Hloop as (attempted & [rest Hpre] & _ & Htt & _).
  cbn [Server.conn Server.tempTables app] in *.
  assert (Forall word (Server.tempTables st1)) as Hword.
  { rewrite Htt. apply Forall_forall. intros t (m & -> & _)%list_elem_of_fmap.
    apply tempTableName_word. }
  assert (forall t, t ∈ Server.tempTables st1 -> t ∉ tables e) as Hfree.
  { rewrite Htt. intros t (m & -> & Hin)%list_elem_of_fmap. apply Hfresh.
    rewrite Hpre. apply elem_of_app. by left. }
  assert (forall st2, Server.tempTables st2 = Server.tempTables st1 ->
            tables (Server.conn st2) = tables (Server.conn st1) ->
            tables (Server.conn (cleanedTimes conn_all (S n) st2)) = tables e) as Hclean.
  { intros st2 Hts Htb.
    rewrite cleanedTimes_tables, Hts, Htb by (by rewrite ?Hts).
    apply set_eq. intros t. rewrite elem_of_difference, elem_of_list_to_set.
    split.
    - intros [[Ht|Ht]%Hsup Hn]; done.
    - intros Ht. split; [by apply Hsub|]. intros Hn. by apply (Hfree t). }
  destruct r as [[]|err].
  - unfold Server.db, Database.executeSQL, Database.runQuery.
    destruct (JS.isEmpty (JS.trim (rewrite sql))).
    + exact (Hclean (Server.mkState (Server.conn st1) (Server.tempTables st1))
               eq_refl eq_refl).
    + specialize (Hquery (Server.conn st1)).
      destruct (conn_all _ _) as [[rows|err] e2];
        exact (Hclean (Server.mkState e2 (Server.tempTables st1)) eq_refl Hquery).
  - exact (Hclean st1 eq_refl eq_refl).
Qed.

(** C2, as the code has it: on every way out of a request, the cleanup
    sends a [DROP TABLE] for each name pushed to [tempTables], one for each
    occurrence whose materialization was attempted, after all the other
    statements of the request; a drop that fails is passed over. Each
    name is dropped exactly once, except when [res.json] throws on the
    rows (a BigInt among them): the [catch] then runs the cleanup loop
    again and each name is dropped twice. So every relation that the
    request created is followed by a drop of its name. The catalog after
    the request is the catalog before it when the engine has the usual
    semantics of [CREATE] and [DROP], the generated names were free before
    the request, and the user's query leaves the catalog alone. *)
Theorem cleanup_after_every_request sql references e :
  (exists attempted stmts query,
     attempted `prefix_of` matchAll sql /\
     Forall2 (fun m stmt => createOf numberToString references m = Some stmt)
       attempted stmts /\
     (query = [] \/ query = [JS.trim (rewrite sql)]) /\
     let drops := List.map Server.dropTableSQL (List.map name attempted) in
     snd (snd (Server.queryLocalWithReferences numberToString (traced conn_all)
                 sql references (e, []))) =
     stmts ++ query ++
     match fst (execution numberToString (traced conn_all) sql references
                  (Server.mkState (e, []) [])) with
     | Resolved rows =>
         match toJSON rows with
         | Some _ => drops
         | None => drops ++ drops
         end
     | Rejected _ => drops
     end) /\
  (standardDDL conn_all tables ->
   (forall m, m ∈ matchAll sql -> name m ∉ tables e) ->
   (forall e1, tables (snd (conn_all (JS.trim (rewrite sql)) e1)) = tables e1) ->
   tables (snd (Server.queryLocalWithReferences numberToString conn_all sql references e))
   = tables e).
Proof.
  split; [|apply catalog_restored].
  unfold Server.queryLocalWithReferences.
  destruct (JS.isEmpty sql) eqn:Hsql.
  - exists [], [], []. split; [apply prefix_nil|]. split; [done|]. split; [by left|].
    unfold Server.handler, tryCatch. rewrite Hsql. cbn.
    destruct (execution _ _ _ _ _).1 as [rows|err]; [|done]. by destruct (toJSON rows).
  - destruct (handler_sent numberToString conn_all sql references e [] Hsql)
      as (attempted & stmts & query & Hpre & Hall & Hq & _ & Hsent).
    exists attempted, stmts, query. repeat split; [done..|]. cbn zeta.
    transitivity (snd (Server.conn (snd (Server.handler numberToString (traced conn_all)
                                           sql references (Server.mkState (e, []) []))))).
    { by destruct (Server.handler _ _ _ _ _) as [r [[e' log'] ts']]. }
    rewrite Hsent. cbn [app]. do 2 f_equal.
    destruct (execution _ _ _ _ _).1 as [rows|err]; cbn [rounds replicate concat].
    + destruct (toJSON rows); cbn [replicate concat]; by rewrite app_nil_r.
    + by rewrite app_nil_r.
Qed.

End Catalog.

(** ** Trimming and scanning *)

Lemma trimStart_blank s : blank s -> JS.trimStart s = [].
Proof. induction 1 as [|c s Hc _ IH]; [done|]. cbn [JS.trimStart]. by rewrite Hc. Qed.

Lemma trim_blank s : blank s -> JS.trim s = [].
Proof. intros H. unfold JS.trim, JS.trimEnd. rewrite (trimStart_blank s H). reflexivity. Qed.

Lemma trimStart_split s : exists w, blank w /\ s = w ++ JS.trimStart s.
Proof.
  induction s as [|c s (w & Hw & IH)]; [exists []; split; [constructor|done]|].
  cbn [JS.trimStart]. destruct (JS.isWhiteSpace c) eqn:Hc.
  - exists (c :: w). split; [by constructor|]. cbn. by rewrite <- IH.
  - exists []. split; [constructor|done].
Qed.

Lemma trimEnd_split s : exists w, blank w /\ s = JS.trimEnd s ++ w.
Proof.
  destruct (trimStart_split (rev s)) as (w & Hw & Hs). exists (rev w). split.
  - by apply Forall_rev.
  - unfold JS.trimEnd. rewrite <- rev_app_distr, <- Hs. by rewrite rev_involutive.
Qed.

Lemma blank_without s c : blank s -> JS.isWhiteSpace c = false -> c ∉ s.
Proof.
  intros Hs Hc Hin. unfold blank in Hs. rewrite Forall_forall in Hs.
  specialize (Hs _ Hin). congruence.
Qed.

(** Text without braces, put after a query, adds no reference to it. *)
Lemma scan_app_plain st s w :
  JS.lbrace ∉ w -> JS.rbrace ∉ w ->
  omap refOf (scan st (s ++ w)) = omap refOf (scan st s).
Proof.
  intros Hl Hr. revert st. induction s as [|c s IH]; intros st.
  - rewrite app_nil_l. destruct st as [acc|].
    + rewrite scan_open_unclosed by done. cbn [scan].
      generalize (JS.lbrace :: acc ++ w), (JS.lbrace :: acc). intros l1 l2.
      transitivity (@nil Match); [by induction l1|by induction l2].
    + cbn [scan]. induction w as [|d w IHw]; [done|].
      apply not_elem_of_cons in Hl as [Hd Hl]. apply not_elem_of_cons in Hr as [_ Hr].
      rewrite scan_text by done. cbn. by apply IHw.
  - cbn [app scan]. destruct st as [acc|].
    + destruct (c =? JS.rbrace); [|apply IH]. destruct acc; cbn; by rewrite IH.
    + destruct (c =? JS.lbrace); [apply IH|]. cbn. by rewrite IH.
Qed.

Lemma matchAll_trim s : matchAll (JS.trim s) = matchAll s.
Proof.
  unfold JS.trim.
  destruct (trimStart_split s) as (w1 & Hw1 & Hs).
  destruct (trimEnd_split (JS.trimStart s)) as (w2 & Hw2 & Ht).
  transitivity (matchAll (JS.trimStart s)).
  - rewrite Ht at 2. unfold matchAll. symmetry.
    apply scan_app_plain; by apply blank_without.
  - rewrite Hs at 2. unfold matchAll.
    rewrite scan_closed; [|apply closed_without; by apply blank_without].
    rewrite omap_app. replace (omap refOf (List.map Text w1)) with (@nil Match); [done|].
    clear. by induction w1.
Qed.

(** ** The client *)

Section ClientProperties.
Context {number Engine : Type}.
Variable numberToString : number -> JS.string.
Variable conn_all : JS.string -> Engine -> outcome (Rows number) * Engine.

Lemma collect_resolved (getNodeByLabel : JS.string -> option (NodeData number))
    pre rest references :
  Forall (fun m => hasRows (getNodeByLabel (nodeLabel m)) = true) pre ->
  exists references',
    Client.collect getNodeByLabel (pre ++ rest) references =
    Client.collect getNodeByLabel rest references'.
Proof.
  intros Hpre. revert references.
  induction Hpre as [|m pre Hm _ IH]; intros references; [by eexists|].
  cbn [app Client.collect]. unfold hasRows in Hm.
  destruct (getNodeByLabel (nodeLabel m)) as [node|]; [|done].
  destruct (results node) as [[|row0 rows]|]; [done| |done]. apply IH.
Qed.

(** The client stops at the first label that does not resolve, with the
    message of its kind. *)
Lemma collect_unresolved (getNodeByLabel : JS.string -> option (NodeData number))
    pre m post references :
  Forall (fun m => hasRows (getNodeByLabel (nodeLabel m)) = true) pre ->
  hasRows (getNodeByLabel (nodeLabel m)) = false ->
  Client.collect getNodeByLabel (pre ++ m :: post) references =
  Rejected (mkError (match getNodeByLabel (nodeLabel m) with
                     | None => Client.notFound (nodeLabel m)
                     | Some _ => Server.noResults (nodeLabel m)
                     end)).
Proof.
  intros Hpre Hm. destruct (collect_resolved _ pre (m :: post) references Hpre) as [r ->].
  cbn [Client.collect]. unfold hasRows in Hm.
  destruct (getNodeByLabel (nodeLabel m)) as [node|]; [|done].
  by destruct (results node) as [[|row0 rows]|].
Qed.

Lemma trim_matches sql : matchAll (JS.trim sql) ≠ [] -> JS.isEmpty (JS.trim sql) = false.
Proof. by destruct (JS.trim sql). Qed.

Lemma executeSQLWithReferences_unresolved sql getNodeByLabel e pre m post :
  matchAll sql = pre ++ m :: post ->
  Forall (fun m => hasRows (getNodeByLabel (nodeLabel m)) = true) pre ->
  hasRows (getNodeByLabel (nodeLabel m)) = false ->
  Client.executeSQLWithReferences numberToString conn_all sql getNodeByLabel e =
  (Rejected (mkError (match getNodeByLabel (nodeLabel m) with
                      | None => Client.notFound (nodeLabel m)
                      | Some _ => Server.noResults (nodeLabel m)
                      end)), e).
Proof.
  intros Hms Hpre Hm. rewrite <- matchAll_trim in Hms.
  unfold Client.executeSQLWithReferences.
  rewrite trim_matches by (rewrite Hms; by destruct pre).
  rewrite Hms. by rewrite collect_unresolved.
Qed.

Lemma notFound_noResults l l' : Client.notFound l ≠ Server.noResults l'.
Proof.
  intros H. apply (f_equal (fun s => nth 5 s 0)) in H.
  vm_compute in H. discriminate.
Qed.

Lemma resolve_hasRows (references : gmap JS.string (NodeData number)) m :
  hasRows (references !! nodeLabel m) = false -> resolve references m = None.
Proof.
  unfold hasRows, resolve. destruct (references !! nodeLabel m) as [node|]; [|done].
  by destruct (results node) as [[|row0 rows]|].
Qed.

Lemma hasRows_resolve (references : gmap JS.string (NodeData number)) ms :
  Forall (fun m => hasRows (references !! nodeLabel m) = true) ms ->
  Forall (fun m => is_Some (resolve references m)) ms.
Proof.
  intros H. eapply Forall_impl; [exact H|]. cbn beta. intros m. unfold hasRows, resolve.
  destruct (references !! nodeLabel m) as [node|]; [|done].
  destruct (results node) as [[|row0 rows]|]; [done| |done]. by eexists.
Qed.

End ClientProperties.

(** ** A request from end to end *)

Section Requests.
Context {number Engine : Type}.
Variable numberToString : number -> JS.string.
Variable conn_all : JS.string -> Engine -> outcome (Rows number) * Engine.

Local Abbreviation name := (fun m => tempTableName (nodeLabel m)).
Local Abbreviation emptyQuery := (mkError (js "Empty query")).

(** C8: a query without a reference goes through the with-references
    route exactly as through the plain one - same answer, rows or error,
    and same effect on the engine - and through [executeSQLWithReferences]
    exactly as through [executeSQL]; the only statement the engine is sent
    is the trimmed query itself, so no relation is created on its behalf. *)
Theorem no_reference_is_direct_execution sql references getNodeByLabel e log :
  matchAll sql = [] ->
  Server.queryLocalWithReferences numberToString conn_all sql references e =
    Server.queryLocal conn_all sql e /\
  Client.executeSQLWithReferences numberToString conn_all sql getNodeByLabel e =
    Client.executeSQL conn_all sql e /\
  snd (snd (Server.queryLocalWithReferences numberToString (traced conn_all)
              sql references (e, log))) =
    log ++ (if JS.isEmpty (JS.trim sql) then [] else [JS.trim sql]).
Proof.
  intros Hms. split; [by apply queryLocalWithReferences_plain|]. split.
  - unfold Client.executeSQLWithReferences, Client.executeSQL.
    destruct (JS.isEmpty (JS.trim sql)); [done|].
    rewrite matchAll_trim, Hms. cbn [Client.collect]. unfold tryCatch, bind.
    rewrite queryLocalWithReferences_plain; [done|by rewrite matchAll_trim].
  - rewrite queryLocalWithReferences_plain by done.
    unfold Server.queryLocal, tryCatch, bind, Database.executeSQL, Database.runQuery.
    destruct sql as [|c sql]; [cbn; by rewrite app_nil_r|]. cbn [JS.isEmpty].
    destruct (JS.isEmpty (JS.trim (c :: sql))); [cbn; by rewrite app_nil_r|].
    pose proof (traced_sent conn_all (JS.trim (c :: sql)) e log) as Hsent.
    destruct (traced conn_all _ _) as [[rows|err] [e' log']]; [|done].
    unfold Server.json. by destruct (toJSON rows).
Qed.

(** C10: a query that is empty or made of whitespace only is rejected with
    [Empty query] by the client's [executeSQL] and
    [executeSQLWithReferences] before any request is made, and by the
    server's [executeSQL] before [runQuery] is called: in all three the
    engine is sent no statement and stays as it was. *)
Theorem blank_query_rejected sql getNodeByLabel e log :
  blank sql ->
  Client.executeSQL (traced conn_all) sql (e, log) = (Rejected emptyQuery, (e, log)) /\
  Client.executeSQLWithReferences numberToString (traced conn_all) sql getNodeByLabel (e, log)
    = (Rejected emptyQuery, (e, log)) /\
  Database.executeSQL (traced conn_all) sql (e, log) = (Rejected emptyQuery, (e, log)).
Proof.
  intros Hsql%trim_blank.
  unfold Client.executeSQL, Client.executeSQLWithReferences, Database.executeSQL.
  by rewrite Hsql.
Qed.

(** X21: The routes of the server, reached with such a query: the empty string
    is refused by the guard [!sql], whitespace by [executeSQL]; the engine
    is sent nothing in either case. *)
Lemma routes_reject_blank sql references e log :
  blank sql ->
  let answer : Response number :=
    if JS.isEmpty sql then BadRequest (js "SQL query is required")
    else Failure (js "Empty query") in
  Server.queryLocal (traced conn_all) sql (e, log) = (Resolved answer, (e, log)) /\
  Server.queryLocalWithReferences numberToString (traced conn_all) sql references (e, log)
    = (Resolved answer, (e, log)).
Proof.
  intros Hsql answer.
  assert (Server.queryLocal (traced conn_all) sql (e, log) = (Resolved answer, (e, log))) as H.
  { unfold Server.queryLocal, tryCatch, bind, Database.executeSQL, answer.
    destruct (JS.isEmpty sql); [done|]. by rewrite (trim_blank sql Hsql). }
  split; [done|]. rewrite queryLocalWithReferences_plain; [done|].
  by rewrite <- matchAll_trim, (trim_blank sql Hsql).
Qed.

(** C4, as the code has it. At the server, the first label that does not
    resolve ends the request with its message, unless the engine refused
    the creation for an occurrence before it: the request has then ended
    there, with the error of the engine. Either way no relation is
    created for the label or for any later occurrence, but the relations
    of occurrences before it have been created - all of them when the
    engine accepted them, those up to the refused one otherwise - and the
    cleanup drops them. Through [executeSQLWithReferences] the client
    resolves every label before it calls the server: the request fails at
    the first label that does not resolve and the engine is sent
    nothing. *)
Theorem unresolved_label_aborts sql references getNodeByLabel e log pre m post :
  matchAll sql = pre ++ m :: post ->
  (Forall (fun m => hasRows (references !! nodeLabel m) = true) pre ->
   hasRows (references !! nodeLabel m) = false ->
   exists attempted stmts,
     attempted `prefix_of` pre /\
     Forall2 (fun m stmt => createOf numberToString references m = Some stmt)
       attempted stmts /\
     snd (snd (Server.queryLocalWithReferences numberToString (traced conn_all)
                 sql references (e, log))) =
       log ++ stmts ++ List.map Server.dropTableSQL (List.map name attempted) /\
     match fst (forOf pre (Server.materialize numberToString (traced conn_all) references)
                  (Server.mkState (e, log) [])) with
     | Resolved _ =>
         attempted = pre /\
         fst (Server.queryLocalWithReferences numberToString (traced conn_all)
                sql references (e, log)) =
           Resolved (Failure (Server.noResults (nodeLabel m)))
     | Rejected err =>
         fst (Server.queryLocalWithReferences numberToString (traced conn_all)
                sql references (e, log)) =
           Resolved (Failure (message err)) /\
         exists stmt e1, last stmts = Some stmt /\ fst (conn_all stmt e1) = Rejected err
     end) /\
  (Forall (fun m => hasRows (getNodeByLabel (nodeLabel m)) = true) pre ->
   hasRows (getNodeByLabel (nodeLabel m)) = false ->
   Client.executeSQLWithReferences numberToString (traced conn_all) sql getNodeByLabel (e, log)
   = (Rejected (mkError (match getNodeByLabel (nodeLabel m) with
                         | None => Client.notFound (nodeLabel m)
                         | Some _ => Server.noResults (nodeLabel m)
                         end)), (e, log))).
Proof.
  intros Hms. split.
  - intros Hpre%hasRows_resolve Hm%resolve_hasRows. by apply unresolved_sent with post.
  - intros Hpre Hm. by apply executeSQLWithReferences_unresolved with pre post.
Qed.

(** C5, as the code has it. The client tells the two kinds apart: a label
    without a node fails with [Node with label "..." not found], a label
    whose node has no rows with [Node "..." has no results], and the two
    messages differ. The server has one check and one message: for a
    label that [references] does not hold and for a label held without
    rows alike, the body of its loop throws [Node "..." has no results],
    and the request fails with that message at the first such label,
    unless the engine refused the creation for an occurrence before it
    and the request has failed there with the error of the engine. *)
Theorem resolution_failure_messages sql references getNodeByLabel e log pre m post :
  matchAll sql = pre ++ m :: post ->
  (Forall (fun m => hasRows (getNodeByLabel (nodeLabel m)) = true) pre ->
   hasRows (getNodeByLabel (nodeLabel m)) = false ->
   Client.executeSQLWithReferences numberToString conn_all sql getNodeByLabel e =
     (Rejected (mkError (match getNodeByLabel (nodeLabel m) with
                         | None => Client.notFound (nodeLabel m)
                         | Some _ => Server.noResults (nodeLabel m)
                         end)), e) /\
   Client.notFound (nodeLabel m) ≠ Server.noResults (nodeLabel m)) /\
  (Forall (fun m => hasRows (references !! nodeLabel m) = true) pre ->
   hasRows (references !! nodeLabel m) = false ->
   (forall st, Server.materialize numberToString (traced conn_all) references m st =
               (Rejected (mkError (Server.noResults (nodeLabel m))), st)) /\
   match fst (forOf pre (Server.materialize numberToString (traced conn_all) references)
                (Server.mkState (e, log) [])) with
   | Resolved _ =>
       fst (Server.queryLocalWithReferences numberToString (traced conn_all)
              sql references (e, log)) =
         Resolved (Failure (Server.noResults (nodeLabel m)))
   | Rejected err =>
       fst (Server.queryLocalWithReferences numberToString (traced conn_all)
              sql references (e, log)) =
         Resolved (Failure (message err)) /\
       exists m' stmt e1,
         m' ∈ pre /\
         createOf numberToString references m' = Some stmt /\
         fst (conn_all stmt e1) = Rejected err
   end).
Proof.
  intros Hms. split.
  - intros Hpre Hm. split; [|apply notFound_noResults].
    by apply executeSQLWithReferences_unresolved with pre post.
  - intros Hpre%hasRows_resolve Hm%resolve_hasRows.
    split; [intros st; by apply materialize_unresolved|].
    destruct (unresolved_sent numberToString conn_all _ _ e log _ _ _ Hms Hpre Hm)
      as (attempted & stmts & [rest ->] & Hcr & _ & Hr).
    destruct (forOf _ _ _).1 as [[]|err]; [by destruct Hr|].
    destruct Hr as (Hanswer & stmt & e1 & Hlast & Hrefused). split; [done|].
    rewrite last_lookup in Hlast.
    destruct (Forall2_lookup_r _ _ _ _ _ Hcr Hlast) as (m' & Hm' & Hstmt).
    exists m', stmt, e1. split; [|done].
    apply elem_of_app. left. by eapply list_elem_of_lookup_2.
Qed.

End Requests.

(** ** Names and literals *)

Section Materialization.
Context {number Engine : Type}.
Variable numberToString : number -> JS.string.
Variable conn_all : JS.string -> Engine -> outcome (Rows number) * Engine.

Local Abbreviation rowValue := (Server.rowValue numberToString).

Lemma readBody_doubleQuotes s : readBody (JS.doubleQuotes s ++ [JS.quote]) = Some s.
Proof.
  induction s as [|c s IH]; [done|].
  unfold JS.doubleQuotes in *. cbn [flat_map]. destruct (N.eqb_spec c JS.quote) as [->|Hc].
  - cbn [app readBody]. rewrite !N.eqb_refl. by rewrite IH.
  - cbn [app readBody]. destruct (N.eqb_spec c JS.quote); [done|]. by rewrite IH.
Qed.

(** The values of the first row, read by its own keys, are its own
    values, in the order of the row. *)
Lemma get_keys (row : Row number) :
  NoDup (keys row) -> List.map (get row) (keys row) = List.map (fun kv => Own kv.2) row.
Proof.
  induction row as [|[k v] row IH]; [done|].
  intros [Hk Hrow]%NoDup_cons. cbn [keys List.map fst snd]. unfold get at 1. cbn [own].
  rewrite decide_True by done. f_equal. rewrite <- IH by done.
  apply map_ext_in. intros k' Hk'%list_elem_of_In. unfold get. cbn [own].
  rewrite decide_False; [done|]. by intros ->.
Qed.

Lemma readLiteral_quoted text : readLiteral (Server.quoted text) = Some text.
Proof.
  unfold Server.quoted. cbn [app readLiteral]. rewrite N.eqb_refl.
  apply readBody_doubleQuotes.
Qed.

(** How a value is written. A number is written as JavaScript prints it,
    without quotes; [null] and [undefined] are written [NULL]; a string or
    a boolean is written between single quotes with every quote of its
    text doubled, so that reading the literal back gives the text. A
    value that the row does not have is [undefined] only when the name of
    the column is not the name of a member of [Object.prototype]: else
    the member is read, and its text is written between quotes. *)
Lemma literals (row : Row number) col :
  rowValue (get row col) =
  match own row col with
  | Some VNull => js "NULL"
  | Some (VNumber n) => numberToString n
  | Some (VString text) => Server.quoted text
  | Some (VBoolean b) => Server.quoted (if b then js "true" else js "false")
  | None =>
      match inherited col with
      | Some text => Server.quoted text
      | None => js "NULL"
      end
  end.
Proof.
  unfold get. destruct (own row col) as [[|n|text|[|]]|]; try done.
  by destruct (inherited col).
Qed.

(** C3, as the code has it: the name of a relation is the marker [temp_]
    followed by the label in which every character outside
    [[A-Za-z0-9_]] is replaced by an underscore, and nothing more. No
    token of the request enters it: the names that a request pushes are
    the names of the labels of its occurrences, whatever the request and
    the state of the engine. *)
Theorem relation_name_from_label_only lbl sql references e :
  tempTableName lbl = js "temp_" ++ JS.sanitize lbl /\
  length (tempTableName lbl) = (5 + length lbl)%nat /\
  (forall i c, lbl !! i = Some c ->
               JS.sanitize lbl !! i = Some (if JS.isWordChar c then c else JS.underscore)) /\
  Forall (fun c => JS.isWordChar c = true) (tempTableName lbl) /\
  (forall t,
     t ∈ Server.tempTables
           (snd (Server.handler numberToString conn_all sql references (Server.mkState e []))) ->
     exists m, m ∈ matchAll sql /\ t = tempTableName (nodeLabel m)).
Proof.
  split; [done|]. split.
  { unfold tempTableName. rewrite length_app, sanitize_length. done. }
  split.
  { intros i c Hi. unfold JS.sanitize.
    change (List.map ?f ?l) with (f <$> l). by rewrite list_lookup_fmap, Hi. }
  split; [apply tempTableName_word|].
  destruct (JS.isEmpty sql) eqn:Hsql.
  - unfold Server.handler, tryCatch. rewrite Hsql. cbn. by intros t ?%elem_of_nil.
  - rewrite handler_outcome by done. cbn [snd]. rewrite cleanedTimes_tempTables.
    unfold execution, bind.
    destruct (forOf _ _ _) as [r st1] eqn:Hloop.
    apply materialize_loop in Hloop as (attempted & [rest Hpre] & _ & Htt & _).
    cbn [Server.tempTables app] in Htt.
    assert (forall t, t ∈ Server.tempTables st1 ->
              exists m, m ∈ matchAll sql /\ t = tempTableName (nodeLabel m)) as H.
    { rewrite Htt. intros t (m & -> & Hin)%list_elem_of_fmap. exists m. split; [|done].
      rewrite Hpre. apply elem_of_app. by left. }
    destruct r as [[]|err]; [|exact H].
    unfold Server.db. destruct (Database.executeSQL _ _ _) as [[rows|err] e2]; exact H.
Qed.

End Materialization.

(** ** The pipeline at work *)

Example scan_whitespace_variants :
  List.map nodeLabel (matchAll (js "SELECT * FROM {sales} JOIN { sales } ON {}")) =
  [js "sales"; js "sales"].
Proof. vm_compute. reflexivity. Qed.

Example rewrite_whitespace_variants :
  rewrite (js "SELECT a.* FROM {sales} a JOIN { sales } b") =
  js "SELECT a.* FROM temp_sales a JOIN temp_sales b".
Proof. vm_compute. reflexivity. Qed.

(** The statements of a request with one reference. *)
Example select_sales_sent :
  Server.queryLocalWithReferences zToString (traced accepting) selectSales salesRefs (tt, [])
  = (Resolved (Data []),
     (tt, [salesCreate; js "SELECT * FROM temp_sales WHERE total > 60";
           js "DROP TABLE temp_sales"])).
Proof. vm_compute. reflexivity. Qed.

(** The rows of a count are BigInts: [res.json] cannot send them, and the
    plain route answers with the error of [JSON.stringify]. *)
Example count_not_sent :
  Server.queryLocal (traced (answering countRows)) (js "SELECT COUNT(*) AS n FROM users")
    (tt, [])
  = (Resolved (Failure (js "Do not know how to serialize a BigInt")),
     (tt, [js "SELECT COUNT(*) AS n FROM users"])).
Proof. vm_compute. reflexivity. Qed.

(** Every relation dropped with an engine that refuses every drop: the rows
    are returned all the same, and the relation stays. *)
Example drop_refused_rows_returned :
  Server.queryLocalWithReferences zToString (catalogEngine true) selectSales salesRefs []
  = (Resolved (Data []), [js "temp_sales"]).
Proof. vm_compute. reflexivity. Qed.

(** ** The catalog engine has the usual semantics *)

Lemma firstWord_word name rest :
  Forall (fun c => JS.isWordChar c = true) name ->
  firstWord (name ++ JS.space :: rest) = name.
Proof.
  induction 1 as [|c name Hc _ IH]; cbn [app firstWord].
  - by rewrite N.eqb_refl.
  - destruct (N.eqb_spec c JS.space) as [->|]; [done|]. by rewrite IH.
Qed.

Lemma catalogEngine_create {number} name values aliases catalog :
  Forall (fun c => JS.isWordChar c = true) name ->
  @catalogEngine number false (Server.createTableSQL name values aliases) catalog =
  if decide (name ∈ catalog)
  then (Rejected (mkError (js "Catalog Error: table already exists")), catalog)
  else (Resolved [], catalog ++ [name]).
Proof.
  intros Hname. unfold catalogEngine, Server.createTableSQL.
  rewrite stripPrefix_app.
  change (js " AS SELECT * FROM (VALUES ") with (JS.space :: js "AS SELECT * FROM (VALUES ").
  rewrite <- app_comm_cons. by rewrite firstWord_word.
Qed.

Lemma catalogEngine_drop {number} name catalog :
  @catalogEngine number false (Server.dropTableSQL name) catalog =
  if decide (name ∈ catalog)
  then (Resolved [], List.filter (fun n => negb (bool_decide (n = name))) catalog)
  else (Rejected (mkError (js "Catalog Error: table does not exist")), catalog).
Proof.
  unfold catalogEngine, Server.dropTableSQL.
  change (JS.stripPrefix (js "CREATE TEMP TABLE ") (js "DROP TABLE " ++ name)) with (@None JS.string).
  by rewrite stripPrefix_app.
Qed.

Lemma catalogEngine_standard {number} :
  standardDDL (@catalogEngine number false) (list_to_set (C := gset JS.string)).
Proof.
  split.
  - intros name values aliases catalog Hname. rewrite catalogEngine_create by done.
    destruct (decide (name ∈ catalog)); [done|].
    rewrite list_to_set_app_L. cbn. set_solver.
  - intros name catalog _. rewrite catalogEngine_drop.
    destruct (decide (name ∈ catalog)) as [Hin|Hnot].
    + apply set_eq. intros t.
      rewrite elem_of_difference, !elem_of_list_to_set, elem_of_singleton.
      rewrite !list_elem_of_In, filter_In.
      rewrite negb_true_iff, bool_decide_eq_false. done.
    + split; [|done]. by rewrite elem_of_list_to_set.
Qed.

(** ** Where the code parts from the specification *)

(** C7, where the code parts from it: a value that a row does not have is
    not always written [NULL]. For the request
    [{sql: "SELECT * FROM {t}", references: {t: {results: [{toString: 1, total: 2}, {}]}}}]
    the second row has no value for either column: [row["total"]] is
    [undefined] and is written [NULL], but [row["toString"]] finds the
    function that the row inherits from [Object.prototype], which is
    neither [null] nor [undefined] nor a number, and its text is written
    as a string. *)
Theorem absent_value_reads_prototype :
  own (nth 1 sparseRows []) (js "toString") = None /\
  own (nth 1 sparseRows []) (js "total") = None /\
  Server.queryLocalWithReferences zToString (traced accepting) (js "SELECT * FROM {t}")
    sparseRefs (tt, []) =
  (Resolved (Data []),
   (tt, [ js "CREATE TEMP TABLE temp_t AS SELECT * FROM (VALUES (1, 2)," ++ [10]
          ++ js "('function toString() { [native code] }', NULL)) AS t("
          ++ [34] ++ js "toString" ++ [34] ++ js ", " ++ [34] ++ js "total" ++ [34] ++ js ")";
          js "SELECT * FROM temp_t";
          js "DROP TABLE temp_t" ])).
Proof. vm_compute. by repeat split. Qed.


(** The cleanup drops by name. A relation that was there before the request
    under a generated name is dropped by it; and with an engine that
    refuses the drops, a relation that the request created stays. Nor is
    a relation always dropped once: when the rows hold a BigInt, as those
    of a count do, [res.json] throws after the cleanup and the [catch]
    drops the relation a second time. *)
Lemma catalog_not_restored :
  snd (Server.queryLocalWithReferences zToString (catalogEngine false) selectSales
         salesRefs [js "users"; js "temp_sales"]) = [js "users"] /\
  [js "users"] ≠ [js "users"; js "temp_sales"] /\
  snd (Server.queryLocalWithReferences zToString (catalogEngine true) selectSales
         salesRefs [js "users"]) = [js "users"; js "temp_sales"] /\
  [js "users"; js "temp_sales"] ≠ [js "users"] /\
  Server.queryLocalWithReferences zToString (traced (answering countRows))
    (js "SELECT COUNT(*) AS n FROM {sales}") salesRefs (tt, []) =
  (Resolved (Failure (js "Do not know how to serialize a BigInt")),
   (tt, [salesCreate; js "SELECT COUNT(*) AS n FROM temp_sales";
         js "DROP TABLE temp_sales"; js "DROP TABLE temp_sales"])).
Proof. vm_compute. repeat split; discriminate. Qed.

(** Two requests, one name: the name of a relation comes from the label
    alone. Two labels can even share a name. *)
Lemma same_name_in_two_requests :
  let names sql :=
    Server.tempTables (snd (Server.handler zToString (traced accepting) sql salesRefs
                              (Server.mkState (tt, []) []))) in
  selectSales ≠ js "SELECT city FROM { sales }" /\
  names selectSales = [js "temp_sales"] /\
  names (js "SELECT city FROM { sales }") = [js "temp_sales"] /\
  tempTableName (js "my sales") = tempTableName (js "my-sales").
Proof. vm_compute. repeat split; discriminate. Qed.

(** The server creates the relation of a label that resolves before it
    meets one that does not. *)
Lemma relation_created_before_unresolved_label :
  hasRows (salesRefs !! js "ghost") = false /\
  Server.queryLocalWithReferences zToString (traced accepting) joinGhost salesRefs (tt, [])
  = (Resolved (Failure (Server.noResults (js "ghost"))),
     (tt, [salesCreate; js "DROP TABLE temp_sales"])).
Proof. vm_compute. by split. Qed.

(** The server answers a label without an entry and a label without rows
    with the same message. *)
Lemma server_does_not_tell_kinds_apart :
  let missing : gmap JS.string (NodeData Z) := ∅ in
  let empty : gmap JS.string (NodeData Z) :=
    {[ js "ghost" := mkNodeData (Some []) (js "ghost") ]} in
  missing !! js "ghost" = None /\
  empty !! js "ghost" = Some (mkNodeData (Some []) (js "ghost")) /\
  Server.queryLocalWithReferences zToString (traced accepting) selectGhost missing (tt, [])
  = Server.queryLocalWithReferences zToString (traced accepting) selectGhost empty (tt, []).
Proof. vm_compute. by repeat split. Qed.

(** ** The theorems at work *)

Lemma cleanup_after_every_request_witness :
  list_to_set (C := gset JS.string)
    (snd (Server.queryLocalWithReferences zToString (catalogEngine false) selectSales
            salesRefs [js "users"]))
  = list_to_set [js "users"].
Proof.
  apply (proj2 (cleanup_after_every_request zToString (catalogEngine false) list_to_set
                  selectSales salesRefs [js "users"])).
  - apply catalogEngine_standard.
  - intros m Hm. vm_compute in Hm.
    apply list_elem_of_singleton in Hm as ->.
    rewrite elem_of_list_to_set. vm_compute.
    intros [H|H]%elem_of_cons; [discriminate|by apply elem_of_nil in H].
  - intros e1. reflexivity.
Defined.

Lemma unresolved_label_aborts_witness :
  (exists attempted stmts,
     attempted `prefix_of` [salesMatch; salesMatch] /\
     Forall2 (fun m stmt => createOf zToString salesRefs m = Some stmt) attempted stmts /\
     snd (snd (Server.queryLocalWithReferences zToString (traced (catalogEngine false))
                 twiceGhost salesRefs ([], [])))
       = [] ++ stmts
         ++ List.map Server.dropTableSQL
              (List.map (fun m => tempTableName (nodeLabel m)) attempted) /\
     fst (Server.queryLocalWithReferences zToString (traced (catalogEngine false))
            twiceGhost salesRefs ([], []))
       = Resolved (Failure (js "Catalog Error: table already exists")) /\
     exists stmt e1,
       last stmts = Some stmt /\
       fst (catalogEngine (number := Z) false stmt e1)
       = Rejected (mkError (js "Catalog Error: table already exists"))) /\
  Client.executeSQLWithReferences zToString (traced (catalogEngine false)) twiceGhost
    (getNodeByLabel canvas) ([], [])
  = (Rejected (mkError (Client.notFound (js "ghost"))), ([], [])).
Proof.
  destruct (unresolved_label_aborts zToString (catalogEngine false) twiceGhost salesRefs
              (getNodeByLabel canvas) [] [] [salesMatch; salesMatch] ghostMatch []
              eq_refl) as [Hs Hc].
  split.
  - apply Hs; [by repeat constructor|reflexivity].
  - apply Hc; [by repeat constructor|reflexivity].
Defined.

Lemma resolution_failure_messages_witness :
  Client.executeSQLWithReferences zToString accepting selectGhost (getNodeByLabel canvas) tt
    = (Rejected (mkError (Client.notFound (js "ghost"))), tt) /\
  Client.executeSQLWithReferences zToString accepting (js "SELECT * FROM {draft}")
    (getNodeByLabel canvas) tt
    = (Rejected (mkError (Server.noResults (js "draft"))), tt) /\
  fst (Server.queryLocalWithReferences zToString (traced accepting) selectGhost salesRefs (tt, []))
    = Resolved (Failure (Server.noResults (js "ghost"))) /\
  fst (Server.queryLocalWithReferences zToString (traced (catalogEngine false))
         twiceGhost salesRefs ([], []))
    = Resolved (Failure (js "Catalog Error: table already exists")).
Proof.
  destruct (resolution_failure_messages zToString accepting selectGhost salesRefs
              (getNodeByLabel canvas) tt [] [] ghostMatch [] eq_refl) as [Hc Hs].
  destruct (resolution_failure_messages zToString accepting (js "SELECT * FROM {draft}")
              salesRefs (getNodeByLabel canvas) tt []
              [] (mkMatch (js "{draft}") (js "draft")) [] eq_refl) as [Hd _].
  destruct (resolution_failure_messages zToString (catalogEngine false) twiceGhost
              salesRefs (getNodeByLabel canvas) [] []
              [salesMatch; salesMatch] ghostMatch [] eq_refl) as [_ Ht].
  split; [exact (proj1 (Hc (Forall_nil_2 _) eq_refl))|].
  split; [exact (proj1 (Hd (Forall_nil_2 _) eq_refl))|].
  split; [exact (proj2 (Hs (Forall_nil_2 _) eq_refl))|].
  assert (Forall (fun m => hasRows (salesRefs !! nodeLabel m) = true)
            [salesMatch; salesMatch]) as Hpre by (by repeat constructor).
  exact (proj1 (proj2 (Ht Hpre eq_refl))).
Defined.

Lemma no_reference_is_direct_execution_witness :
  Server.queryLocalWithReferences zToString (catalogEngine false) (js " SELECT 1 ")
    salesRefs [js "users"]
  = Server.queryLocal (catalogEngine false) (js " SELECT 1 ") [js "users"] /\
  Client.executeSQLWithReferences zToString (catalogEngine false) (js " SELECT 1 ")
    (getNodeByLabel canvas) [js "users"]
  = Client.executeSQL (catalogEngine false) (js " SELECT 1 ") [js "users"] /\
  snd (snd (Server.queryLocalWithReferences zToString (traced (catalogEngine false))
              (js " SELECT 1 ") salesRefs ([js "users"], [])))
  = [] ++ [js "SELECT 1"].
Proof.
  exact (no_reference_is_direct_execution zToString (catalogEngine false) (js " SELECT 1 ")
           salesRefs (getNodeByLabel canvas) [js "users"] [] eq_refl).
Defined.

Lemma blank_query_rejected_witness :
  Client.executeSQL (traced (@accepting Z)) (js "   ") (tt, [])
    = (Rejected (mkError (js "Empty query")), (tt, [])) /\
  Client.executeSQLWithReferences zToString (traced accepting) (js "   ")
    (getNodeByLabel canvas) (tt, [])
    = (Rejected (mkError (js "Empty query")), (tt, [])) /\
  Database.executeSQL (traced (@accepting Z)) (js "   ") (tt, [])
    = (Rejected (mkError (js "Empty query")), (tt, [])).
Proof.
  apply (blank_query_rejected zToString accepting (js "   ") (getNodeByLabel canvas) tt []).
  repeat constructor.
Defined.

(** * The rest of the code *)

(** ** Trimmed text *)

Lemma trimStart_fixed c s : JS.isWhiteSpace c = false -> JS.trimStart (c :: s) = c :: s.
Proof. intros Hc. cbn [JS.trimStart]. by rewrite Hc. Qed.

Lemma trimStart_skip w s : blank w -> JS.trimStart (w ++ s) = JS.trimStart s.
Proof. induction 1 as [|c w Hc _ IH]; [done|]. cbn [app JS.trimStart]. by rewrite Hc. Qed.

(** What [trimStart] returns is empty or starts with a character that is
    no whitespace. *)
Lemma trimStart_head s :
  JS.trimStart s = [] \/ exists c r, JS.trimStart s = c :: r /\ JS.isWhiteSpace c = false.
Proof.
  induction s as [|c s IH]; [by left|]. cbn [JS.trimStart].
  destruct (JS.isWhiteSpace c) eqn:Hc; [done|]. right. by exists c, s.
Qed.

Lemma trimEnd_snoc s c : JS.isWhiteSpace c = false -> JS.trimEnd (s ++ [c]) = s ++ [c].
Proof.
  intros Hc. unfold JS.trimEnd. rewrite rev_app_distr. cbn [rev app].
  rewrite trimStart_fixed by done.
  change (c :: rev s) with ([c] ++ rev s). by rewrite rev_app_distr, rev_involutive.
Qed.

(** What [trimEnd] returns is empty or ends with a character that is no
    whitespace. *)
Lemma trimEnd_last s :
  JS.trimEnd s = [] \/ exists r c, JS.trimEnd s = r ++ [c] /\ JS.isWhiteSpace c = false.
Proof.
  unfold JS.trimEnd. destruct (trimStart_head (rev s)) as [->|(c & r & -> & Hc)]; [by left|].
  right. exists (rev r), c. by split.
Qed.

(** [trimEnd] keeps a first character that is no whitespace. *)
Lemma trimEnd_cons c s :
  JS.isWhiteSpace c = false -> exists r, JS.trimEnd (c :: s) = c :: r.
Proof.
  intros Hc. destruct (trimEnd_split (c :: s)) as (w & Hw & Hs).
  destruct (JS.trimEnd (c :: s)) as [|d r] eqn:Ht.
  - cbn in Hs. subst w. apply Forall_cons in Hw as [Hw _]. congruence.
  - injection Hs as -> _. by exists r.
Qed.

(** A trimmed text has nothing left to trim. *)
Lemma trim_fixed s : JS.trimStart (JS.trim s) = JS.trim s /\ JS.trimEnd (JS.trim s) = JS.trim s.
Proof.
  unfold JS.trim. destruct (trimStart_head s) as [->|(c & r & -> & Hc)]; [done|].
  split.
  - destruct (trimEnd_cons c r Hc) as [r' ->]. by apply trimStart_fixed.
  - destruct (trimEnd_last (c :: r)) as [->|(r' & d & -> & Hd)]; [done|].
    by apply trimEnd_snoc.
Qed.

Lemma trim_trim s : JS.trim (JS.trim s) = JS.trim s.
Proof.
  destruct (trim_fixed s) as [H1 H2]. unfold JS.trim at 1. by rewrite H1, H2.
Qed.

Lemma blank_app w1 w2 : blank w1 -> blank w2 -> blank (w1 ++ w2).
Proof. apply Forall_app_2. Qed.

(** Only whitespace trims to nothing. *)
Lemma trim_nil_blank s : JS.trim s = [] -> blank s.
Proof.
  unfold JS.trim. intros H.
  destruct (trimStart_split s) as (w1 & Hw1 & Hs).
  destruct (trimEnd_split (JS.trimStart s)) as (w2 & Hw2 & Ht).
  rewrite H in Ht. rewrite Hs, Ht. by apply blank_app.
Qed.

(** ** References and names *)

(** X1: The scanner returns, for the match, the text between the braces: it
    is not empty and holds no closing brace, the text matched is that text
    between its two braces, and the label has no whitespace at either
    end. *)
Theorem match_shape sql m :
  m ∈ matchAll sql ->
  raw m = JS.lbrace :: group m ++ [JS.rbrace] /\
  group m ≠ [] /\
  (JS.rbrace ∉ group m) /\
  JS.trimStart (nodeLabel m) = nodeLabel m /\
  JS.trimEnd (nodeLabel m) = nodeLabel m.
Proof.
  intros Hm.
  assert (raw m = JS.lbrace :: group m ++ [JS.rbrace] /\ group m ≠ [] /\ (JS.rbrace ∉ group m))
    as (H1 & H2 & H3).
  { revert Hm.
    induction sql as [|c s Hc IH|s Hs|rest IH|c inner rest Hin IH] using scan_cases_ind.
    - by intros ?%elem_of_nil.
    - by rewrite matchAll_text.
    - rewrite matchAll_unclosed by done. by intros ?%elem_of_nil.
    - by rewrite matchAll_empty_braces.
    - rewrite matchAll_reference by done. intros [->|Hm]%elem_of_cons; [|by apply IH].
      by cbn [raw group]. }
  repeat split; try done; unfold nodeLabel; apply trim_fixed.
Qed.

(** A query without an opening brace, or without a closing one, has no
    reference. *)
Lemma matchAll_without sql : (JS.lbrace ∉ sql) \/ (JS.rbrace ∉ sql) -> matchAll sql = [].
Proof.
  intros [Hl|Hr].
  - unfold matchAll. rewrite <- (app_nil_r sql), scan_closed by by apply closed_without.
    rewrite app_nil_r. clear. by induction sql.
  - induction sql as [|c s Hc IH|s Hs|rest IH|c inner rest Hin IH] using scan_cases_ind.
    + done.
    + rewrite matchAll_text by done. apply IH. by apply not_elem_of_cons in Hr as [_ ?].
    + by apply matchAll_unclosed.
    + exfalso. apply Hr. set_solver.
    + exfalso. apply Hr. set_solver.
Qed.

Lemma sanitize_word_id l :
  Forall (fun c => JS.isWordChar c = true) l -> JS.sanitize l = l.
Proof.
  induction 1 as [|c l Hc _ IH]; [done|]. unfold JS.sanitize in *. cbn [List.map].
  by rewrite Hc, IH.
Qed.

(** Sanitizing what is sanitized changes nothing. *)
Lemma sanitize_sanitize l : JS.sanitize (JS.sanitize l) = JS.sanitize l.
Proof. apply sanitize_word_id, sanitize_word. Qed.

(** X2: Labels made of letters, digits and underscores keep their text in the
    relation name, so two such labels with one relation name are one
    label. *)
Theorem tempTableName_word_injective l1 l2 :
  Forall (fun c => JS.isWordChar c = true) l1 ->
  Forall (fun c => JS.isWordChar c = true) l2 ->
  tempTableName l1 = tempTableName l2 -> l1 = l2.
Proof.
  intros H1 H2. unfold tempTableName. rewrite !sanitize_word_id by done.
  by intros ?%app_inv_head.
Qed.

Lemma rewrite_substituteSpans sql : rewrite sql = substituteSpans sql.
Proof. unfold rewrite. exact (rewriteLoop_closed sql [] eq_refl). Qed.

(** The name of every reference is in the rewritten query. *)
Lemma rewrite_holds_names sql m c :
  m ∈ matchAll sql -> c ∈ tempTableName (nodeLabel m) -> c ∈ rewrite sql.
Proof.
  intros Hm Hc. rewrite rewrite_substituteSpans. unfold substituteSpans, matchAll in *.
  apply list_elem_of_omap in Hm as (g & Hg & Hr). destruct g as [d|m']; [done|].
  injection Hr as ->. apply list_elem_of_In, in_concat.
  exists (tempTableName (nodeLabel m)). split; [|by apply list_elem_of_In].
  apply in_map_iff. exists (Ref m). split; [done|by apply list_elem_of_In].
Qed.

Section NeverBlank.
Context {number Engine : Type}.
Variable conn_all : JS.string -> Engine -> outcome (Rows number) * Engine.

(** X3: A query with a reference is never turned down as empty: once
    rewritten it holds the name of a relation, so [executeSQL] sends it,
    trimmed, to the engine. *)
Theorem referencing_query_is_sent sql e :
  matchAll sql ≠ [] ->
  Database.executeSQL conn_all (rewrite sql) e = conn_all (JS.trim (rewrite sql)) e.
Proof.
  intros Hms. unfold Database.executeSQL, Database.runQuery.
  destruct (JS.trim (rewrite sql)) eqn:Ht; [|done]. exfalso.
  apply trim_nil_blank in Ht. destruct (matchAll sql) as [|m ms] eqn:Hm; [done|].
  apply (blank_without _ 116 Ht eq_refl).
  apply (rewrite_holds_names sql m); [rewrite Hm; by left|].
  unfold tempTableName. apply elem_of_app. left. by left.
Qed.

End NeverBlank.

(** ** The client, from end to end *)

Section EndToEnd.
Context {number Engine : Type}.
Variable numberToString : number -> JS.string.
Variable conn_all : JS.string -> Engine -> outcome (Rows number) * Engine.

Local Abbreviation proto := (js "__proto__").

(** X4: [executeSQL] of the client, through the route and [executeSQL] of the
    server: a query that is not blank reaches the engine once, trimmed.
    The rows come back as JSON carries them; when they hold a BigInt,
    [res.json] throws, and the error of [JSON.stringify] comes back in
    their place. An error of the engine comes back with its message, but
    for an error whose message is empty, which comes back as a result
    without rows. *)
Theorem client_executeSQL_outcome sql e :
  Client.executeSQL conn_all sql e =
  if JS.isEmpty (JS.trim sql) then (Rejected (mkError (js "Empty query")), e)
  else
    match conn_all (JS.trim sql) e with
    | (Resolved rows, e') =>
        (match toJSON rows with
         | Some data => Resolved data
         | None => Rejected (mkError (js "Do not know how to serialize a BigInt"))
         end, e')
    | (Rejected err, e') =>
        (if JS.isEmpty (message err) then Resolved []
         else Rejected (mkError (message err)), e')
    end.
Proof.
  unfold Client.executeSQL. destruct (JS.isEmpty (JS.trim sql)) eqn:Ht; [done|].
  unfold Server.queryLocal, Database.executeSQL, Database.runQuery.
  rewrite Ht, trim_trim, Ht.
  unfold tryCatch, bind, ret, Client.resultOf, Client.rethrow, throw, Server.json.
  destruct (conn_all (JS.trim sql) e) as [[rows|err] e'].
  - by destruct (toJSON rows) as [data|].
  - cbn [message]. destruct (JS.isEmpty (message err)) eqn:Hm; [done|].
    cbn [message]. by rewrite Hm.
Qed.

Lemma assign_lookup l (node : NodeData number) references l' :
  l' ≠ proto ->
  Client.assign l node references !! l' =
  if decide (l = l') then Some node else references !! l'.
Proof.
  intros Hl'. unfold Client.assign. destruct (decide (l = proto)) as [->|Hl].
  - by rewrite decide_False.
  - destruct (decide (l = l')) as [->|Hne]; [apply lookup_insert_eq|by apply lookup_insert_ne].
Qed.

Lemma assign_proto l (node : NodeData number) references :
  Client.assign l node references !! proto = references !! proto.
Proof.
  unfold Client.assign. destruct (decide (l = proto)) as [->|Hl]; [done|].
  by apply lookup_insert_ne.
Qed.

(** What the loop of the client has put in [references] when it ends. *)
Lemma collect_lookup (g : JS.string -> option (NodeData number)) ms references0 references :
  Client.collect g ms references0 = Resolved references ->
  Forall (fun m => hasRows (g (nodeLabel m)) = true) ms /\
  references !! proto = references0 !! proto /\
  (forall l, l ≠ proto ->
     references !! l =
     if bool_decide (l ∈ List.map nodeLabel ms) then g l else references0 !! l).
Proof.
  revert references0. induction ms as [|m ms IH]; intros references0; cbn [Client.collect].
  - intros [= <-]. by repeat split.
  - destruct (g (nodeLabel m)) as [node|] eqn:Hg; [|done].
    destruct (results node) as [[|row0 rows]|] eqn:Hr; [done| |done].
    intros (Hall & Hp & Hl)%IH. split; [|split].
    + constructor; [|done]. unfold hasRows. by rewrite Hg, Hr.
    + by rewrite Hp, assign_proto.
    + intros l Hne. rewrite (Hl l Hne). cbn [List.map].
      destruct (bool_decide (l ∈ List.map nodeLabel ms)) eqn:Hin.
      * rewrite bool_decide_eq_true_2; [done|]. apply bool_decide_eq_true in Hin. by right.
      * rewrite assign_lookup by done. apply bool_decide_eq_false in Hin.
        destruct (decide (nodeLabel m = l)) as [<-|Hne'].
        -- rewrite bool_decide_eq_true_2; [done|by left].
        -- rewrite bool_decide_eq_false_2; [done|]. by intros [?|?]%elem_of_cons.
Qed.

(** X5: What the client sends is what the server finds: when the client has
    resolved every label of a query, the server resolves each of them, any
    label but [__proto__], to the rows that the lookup returned. *)
Theorem client_references_resolve sql (g : JS.string -> option (NodeData number)) references m :
  Client.collect g (matchAll sql) ∅ = Resolved references ->
  m ∈ matchAll sql ->
  nodeLabel m ≠ proto ->
  exists node row0 rows,
    g (nodeLabel m) = Some node /\
    results node = Some (row0 :: rows) /\
    resolve references m = Some (row0, row0 :: rows).
Proof.
  intros (Hall & _ & Hl)%collect_lookup Hm Hne.
  rewrite Forall_forall in Hall. specialize (Hall m Hm). specialize (Hl _ Hne).
  rewrite bool_decide_eq_true_2 in Hl by (apply list_elem_of_fmap; by exists m).
  unfold hasRows in Hall. unfold resolve. rewrite Hl.
  destruct (g (nodeLabel m)) as [node|]; [|done].
  destruct (results node) as [[|row0 rows]|] eqn:Hr; [done| |done].
  by exists node, row0, rows.
Qed.

(** X6: The label [__proto__] never reaches the server: the client resolves it,
    but the assignment to [references] leaves no entry for it, and the
    server finds no rows for a reference to it. *)
Theorem proto_label_is_lost sql (g : JS.string -> option (NodeData number)) references m :
  Client.collect g (matchAll sql) ∅ = Resolved references ->
  nodeLabel m = proto ->
  (references !! proto = None) /\ resolve references m = None.
Proof.
  intros (_ & Hp & _)%collect_lookup Hm. rewrite lookup_empty in Hp.
  split; [done|]. unfold resolve. by rewrite Hm, Hp.
Qed.

(** X7: [executeSQLWithReferences] from end to end, once the client has
    resolved every label: the caller gets the outcome of the server's
    materialization and execution. The rows come back as JSON carries
    them, and the engine is left as one round of drops leaves it; when
    the rows hold a BigInt, the error of [JSON.stringify] comes back and
    the engine is left after two rounds of drops. An error comes back
    with its message, after one round of drops, but for an error without a
    message, which comes back as a result without rows. *)
Theorem executeSQLWithReferences_outcome sql g references e :
  JS.isEmpty (JS.trim sql) = false ->
  Client.collect g (matchAll (JS.trim sql)) ∅ = Resolved references ->
  Client.executeSQLWithReferences numberToString conn_all sql g e =
  match execution numberToString conn_all (JS.trim sql) references (Server.mkState e []) with
  | (Resolved rows, st) =>
      match toJSON rows with
      | Some data => (Resolved data, Server.conn (cleaned conn_all st))
      | None =>
          (Rejected (mkError (js "Do not know how to serialize a BigInt")),
           Server.conn (cleaned conn_all (cleaned conn_all st)))
      end
  | (Rejected err, st) =>
      (if JS.isEmpty (message err) then Resolved [] else Rejected (mkError (message err)),
       Server.conn (cleaned conn_all st))
  end.
Proof.
  intros Ht Hrefs. unfold Client.executeSQLWithReferences. rewrite Ht, Hrefs.
  unfold Server.queryLocalWithReferences, tryCatch at 1, bind at 1.
  rewrite handler_outcome by done.
  destruct (execution _ _ _ _ _) as [[rows|err] st]; cbn [fst snd answerTo rounds].
  - unfold Client.resultOf, Client.rethrow, throw, ret.
    by destruct (toJSON rows) as [data|].
  - unfold Client.resultOf, Client.rethrow, throw, ret.
    destruct (JS.isEmpty (message err)) eqn:Hm; [done|]. cbn [message]. by rewrite Hm.
Qed.

(** Without a reference, [executeSQLWithReferences] is [executeSQL]. *)
Lemma executeSQLWithReferences_plain sql g e :
  matchAll sql = [] ->
  Client.executeSQLWithReferences numberToString conn_all sql g e =
  Client.executeSQL conn_all sql e.
Proof.
  intros Hms. unfold Client.executeSQLWithReferences, Client.executeSQL.
  destruct (JS.isEmpty (JS.trim sql)); [done|].
  rewrite matchAll_trim, Hms. cbn [Client.collect]. unfold tryCatch, bind.
  rewrite queryLocalWithReferences_plain; [done|by rewrite matchAll_trim].
Qed.

End EndToEnd.

(** ** The canvas *)

Section Canvas.
Context {number : Type}.

Local Abbreviation Node := (@App.Node number).
Local Abbreviation sqlNamed := (fun (lbl : JS.string) (n : Node) =>
  App.type n = js "sqlNode" /\ App.label (App.data n) = Some lbl).

Lemma getNodeByLabel_None (nds : list Node) lbl :
  App.getNodeByLabel nds lbl = None <-> Forall (fun n => ~ sqlNamed lbl n) nds.
Proof.
  induction nds as [|n nds IH]; cbn [App.getNodeByLabel]; [done|].
  rewrite Forall_cons. destruct (bool_decide (App.type n = js "sqlNode")) eqn:Ht;
    destruct (bool_decide (App.label (App.data n) = Some lbl)) eqn:Hl; cbn [andb];
    try apply bool_decide_eq_true in Ht; try apply bool_decide_eq_true in Hl;
    try apply bool_decide_eq_false in Ht; try apply bool_decide_eq_false in Hl;
    rewrite ?IH; naive_solver.
Qed.

Lemma getNodeByLabel_found (pre post : list Node) n lbl :
  Forall (fun n' => ~ sqlNamed lbl n') pre ->
  sqlNamed lbl n ->
  App.getNodeByLabel (pre ++ n :: post) lbl =
  Some (mkNodeData (App.results (App.data n)) lbl).
Proof.
  intros Hpre [Ht Hl]. induction Hpre as [|n' pre Hn' _ IH]; cbn [app App.getNodeByLabel].
  - by rewrite !bool_decide_eq_true_2.
  - destruct (bool_decide (App.type n' = js "sqlNode")) eqn:Ht';
      destruct (bool_decide (App.label (App.data n') = Some lbl)) eqn:Hl'; cbn [andb];
      try done.
    apply bool_decide_eq_true in Ht', Hl'. by destruct Hn'.
Qed.

(** X11: A reference goes to the first SQL node of the canvas that has the
    label: nodes of another type and later nodes with the same label are
    passed over. *)
Theorem getNodeByLabel_first (pre post : list Node) n lbl :
  Forall (fun n' => ~ sqlNamed lbl n') pre ->
  sqlNamed lbl n ->
  App.getNodeByLabel (pre ++ n :: post) lbl =
  Some (mkNodeData (App.results (App.data n)) lbl).
Proof. apply getNodeByLabel_found. Qed.

(** What is found has the label asked for, and comes from an SQL node of
    the canvas. *)
Lemma getNodeByLabel_Some (nds : list Node) lbl d :
  App.getNodeByLabel nds lbl = Some d ->
  exists pre n post,
    nds = pre ++ n :: post /\ Forall (fun n' => ~ sqlNamed lbl n') pre /\ sqlNamed lbl n /\
    d = mkNodeData (App.results (App.data n)) lbl.
Proof.
  induction nds as [|n nds IH]; cbn [App.getNodeByLabel]; [done|].
  destruct (bool_decide (App.type n = js "sqlNode")) eqn:Ht;
    destruct (bool_decide (App.label (App.data n) = Some lbl)) eqn:Hl; cbn [andb].
  1: { intros [= <-]. apply bool_decide_eq_true in Ht, Hl.
       exists [], n, nds. by repeat split. }
  all: intros (pre & n' & post & -> & Hpre & Hn' & ->)%IH;
    exists (n :: pre), n', post; repeat split; try done; try apply Hn';
    constructor; try done;
    try apply bool_decide_eq_false in Ht; try apply bool_decide_eq_false in Hl;
    by intros [? ?].
Qed.

Lemma updateNode_app nodeId (f : Node -> Node) (l1 l2 : list Node) :
  App.updateNode nodeId f (l1 ++ l2) = App.updateNode nodeId f l1 ++ App.updateNode nodeId f l2.
Proof. unfold App.updateNode. apply map_app. Qed.

Lemma updateNodeResults_named nodeId rows lbl (nds : list Node) :
  Forall (fun n => ~ sqlNamed lbl n) nds ->
  Forall (fun n => ~ sqlNamed lbl n) (App.updateNodeResults nodeId rows nds).
Proof.
  unfold App.updateNodeResults, App.updateNode. intros H. apply Forall_fmap.
  eapply Forall_impl; [exact H|]. intros n Hn. cbn. by destruct (decide _).
Qed.

Lemma updateNodeResults_found (pre post : list Node) n lbl nodeId rows :
  Forall (fun n' => ~ sqlNamed lbl n') pre ->
  sqlNamed lbl n ->
  App.getNodeByLabel (App.updateNodeResults nodeId rows (pre ++ n :: post)) lbl =
  Some (mkNodeData (if decide (App.id n = nodeId) then rows
                    else App.results (App.data n)) lbl).
Proof.
  intros Hpre Hn. unfold App.updateNodeResults at 1.
  rewrite updateNode_app. cbn [App.updateNode List.map].
  destruct (decide (App.id n = nodeId));
    (rewrite getNodeByLabel_found; [done|by apply updateNodeResults_named|done]).
Qed.

(** X12: The results that a run records for a node are the results that a
    reference to the node's label gets, when the node is the first SQL node
    with that label; a record for another node does not change them. *)
Theorem updateNodeResults_lookup (pre post : list Node) n lbl nodeId rows :
  Forall (fun n' => ~ sqlNamed lbl n') pre ->
  sqlNamed lbl n ->
  App.getNodeByLabel (App.updateNodeResults nodeId rows (pre ++ n :: post)) lbl =
  Some (mkNodeData (if decide (App.id n = nodeId) then rows
                    else App.results (App.data n)) lbl).
Proof. apply updateNodeResults_found. Qed.

Lemma js_inj s1 s2 : js s1 = js s2 -> s1 = s2.
Proof.
  unfold js. intros H.
  rewrite <- (string_of_list_ascii_of_string s1), <- (string_of_list_ascii_of_string s2).
  f_equal. revert H. generalize (list_ascii_of_string s1), (list_ascii_of_string s2).
  intros l1. induction l1 as [|a l1 IH]; intros [|b l2]; cbn; try done.
  intros [= Hab Hl]. f_equal; [|by apply IH].
  by rewrite <- (ascii_N_embedding a), <- (ascii_N_embedding b), Hab.
Qed.

Lemma numberToString_inj k1 k2 : App.numberToString k1 = App.numberToString k2 -> k1 = k2.
Proof.
  unfold App.numberToString. intros H%js_inj.
  assert (N.to_uint k1 = N.to_uint k2) as Hu.
  { apply (f_equal NilEmpty.uint_of_string) in H. rewrite !NilEmpty.usu in H. by injection H. }
  by rewrite <- (Unsigned.of_to k1), <- (Unsigned.of_to k2), Hu.
Qed.

Lemma updateNode_ids nodeId (f : Node -> Node) (nds : list Node) :
  (forall n, App.id (f n) = App.id n) ->
  List.map App.id (App.updateNode nodeId f nds) = List.map App.id nds.
Proof.
  intros Hf. unfold App.updateNode. rewrite map_map. apply map_ext.
  intros n. by destruct (decide _).
Qed.

Lemma updateNode_Forall (P : Node -> Prop) nodeId (f : Node -> Node) (nds : list Node) :
  (forall n, P n -> P (f n)) -> Forall P nds -> Forall P (App.updateNode nodeId f nds).
Proof.
  intros Hf H. unfold App.updateNode. apply Forall_fmap.
  eapply Forall_impl; [exact H|]. intros n Hn. cbn. destruct (decide _); auto.
Qed.

Lemma updateNode_invariant nodeId (f : Node -> Node) (c : @App.Canvas number) :
  (forall n, App.id (f n) = App.id n) ->
  (forall n, (exists b, App.locked (App.data n) = Some b /\
                        (App.draggable n = Some (negb b) \/
                         (App.draggable n = None /\ b = false))) ->
             exists b, App.locked (App.data (f n)) = Some b /\
                       (App.draggable (f n) = Some (negb b) \/
                        (App.draggable (f n) = None /\ b = false))) ->
  canvasInvariant c ->
  canvasInvariant (App.mkCanvas (App.updateNode nodeId f (App.nodes c)) (App.nodeId c)).
Proof.
  intros Hid Hlock (Hnd & Hlt & Hl). unfold canvasInvariant. cbn [App.nodes App.nodeId].
  split; [by rewrite updateNode_ids|]. split.
  - apply updateNode_Forall; [|done]. intros n (k & Hk & Hn). exists k. by rewrite Hid.
  - by apply updateNode_Forall.
Qed.

Lemma add_invariant (c : @App.Canvas number) (n : Node) :
  App.id n = App.numberToString (App.nodeId c) ->
  App.locked (App.data n) = Some false ->
  App.draggable n = None ->
  canvasInvariant c ->
  canvasInvariant (App.mkCanvas (App.nodes c ++ [n]) (App.nodeId c + 1)).
Proof.
  intros Hid Hl Hd (Hnd & Hlt & Hlk). unfold canvasInvariant. cbn [App.nodes App.nodeId].
  split; [|split].
  - rewrite map_app. cbn [List.map]. apply NoDup_app. split; [done|]. split.
    + intros i Hi ->%list_elem_of_singleton.
      change (List.map App.id (App.nodes c)) with (App.id <$> App.nodes c) in Hi.
      apply list_elem_of_fmap in Hi as (n' & Hn' & Hin).
      rewrite Forall_forall in Hlt. destruct (Hlt n' Hin) as (k & Hk & Hk').
      rewrite Hid, Hk' in Hn'. apply numberToString_inj in Hn'. lia.
    + apply NoDup_singleton.
  - apply Forall_app. split.
    + eapply Forall_impl; [exact Hlt|]. intros n' (k & Hk & Hn'). exists k. split; [lia|done].
    + constructor; [|done]. exists (App.nodeId c). split; [lia|done].
  - apply Forall_app. split; [done|]. constructor; [|done]. exists false. by auto.
Qed.

Lemma filter_Forall (P : Node -> Prop) p (nds : list Node) :
  Forall P nds -> Forall P (List.filter p nds).
Proof.
  rewrite !Forall_forall. intros H n Hn%list_elem_of_In%filter_In.
  apply H, list_elem_of_In, Hn.
Qed.

Lemma filter_ids_NoDup p (nds : list Node) :
  NoDup (List.map App.id nds) -> NoDup (List.map App.id (List.filter p nds)).
Proof.
  induction nds as [|n nds IH]; [done|]. cbn [List.map List.filter].
  intros [Hn Hnd]%NoDup_cons. destruct (p n); [|by apply IH].
  cbn [List.map]. apply NoDup_cons. split; [|by apply IH].
  intros Hin. apply Hn. apply list_elem_of_In, in_map_iff in Hin as (n' & Hid & Hn'%filter_In).
  apply list_elem_of_In, in_map_iff. exists n'. by split; [|apply Hn'].
Qed.

Lemma delete_invariant nodeId (c : @App.Canvas number) :
  canvasInvariant c ->
  canvasInvariant (App.mkCanvas (App.deleteNode nodeId (App.nodes c)) (App.nodeId c)).
Proof.
  intros (Hnd & Hlt & Hlk). unfold canvasInvariant, App.deleteNode. cbn [App.nodes App.nodeId].
  split; [by apply filter_ids_NoDup|]. split; by apply filter_Forall.
Qed.

(** One invariant for all the operations on the canvas. *)
Lemma reachable_invariant (c : @App.Canvas number) : App.reachable c -> canvasInvariant c.
Proof.
  induction 1 as [|c c' _ IH Hstep|c _ IH].
  - unfold canvasInvariant, App.initial. cbn [App.nodes App.nodeId List.map].
    split; [apply NoDup_singleton|]. split.
    + constructor; [|done]. exists 1. by split.
    + constructor; [|done]. exists false. by auto.
  - destruct Hstep.
    + by apply add_invariant.
    + by apply add_invariant.
    + by apply add_invariant.
    + by apply delete_invariant.
    + by apply updateNode_invariant.
    + by apply updateNode_invariant.
    + by apply updateNode_invariant.
    + by apply updateNode_invariant.
    + apply updateNode_invariant; [done| |done]. intros n _. exists lock. by auto.
    + unfold canvasInvariant, App.clearCanvas. cbn. split; [apply NoDup_nil_2|]. by split.
  - destruct IH as (Hnd & Hlt & Hlk). unfold canvasInvariant, App.loadCanvas, App.saveCanvas.
    cbn [App.nodes App.nodeId]. rewrite !map_map. split; [done|]. split.
    + rewrite <- map_map. apply Forall_fmap. apply Forall_fmap.
      eapply Forall_impl; [exact Hlt|]. by intros n.
    + rewrite <- map_map. apply Forall_fmap. apply Forall_fmap.
      eapply Forall_impl; [exact Hlk|]. intros n (b & Hb & _). exists b. cbn.
      rewrite Hb. split; [done|]. left. by destruct b.
Qed.

(** X13: No two nodes of the canvas have the same id, whatever the user has
    added, deleted, edited, locked, run, cleared, saved and loaded: an
    update by id reaches one node at most. *)
Theorem node_ids_unique (c : @App.Canvas number) :
  App.reachable c -> NoDup (List.map App.id (App.nodes c)).
Proof. by intros (H & _)%reachable_invariant. Qed.

(** X14: A locked node is never draggable. *)
Theorem locked_node_not_draggable (c : @App.Canvas number) n :
  App.reachable c -> n ∈ App.nodes c ->
  App.locked (App.data n) = Some true -> App.draggable n = Some false.
Proof.
  intros (_ & _ & H)%reachable_invariant Hn Hl. rewrite Forall_forall in H.
  destruct (H n Hn) as (b & Hb & [Hd|[_ ->]]); [|congruence].
  rewrite Hl in Hb. by injection Hb as <-.
Qed.

(** X15: After a canvas is saved and loaded no node has results: every label
    that had a node still has one, and a reference to it finds no rows
    until the node is run again. *)
Theorem reloaded_canvas_has_no_results (c : @App.Canvas number) lbl :
  App.getNodeByLabel (App.nodes (App.loadCanvas (App.saveCanvas c))) lbl =
  (fun _ => mkNodeData None lbl) <$> App.getNodeByLabel (App.nodes c) lbl.
Proof.
  unfold App.loadCanvas, App.saveCanvas. cbn [App.nodes]. rewrite map_map.
  induction (App.nodes c) as [|n nds IH]; [done|]. cbn [List.map App.getNodeByLabel].
  cbn [App.restored App.saved App.type App.data App.label App.results].
  by destruct (_ && _).
Qed.

End Canvas.

(** ** Running a node *)

Section Runs.
Context {number Engine : Type}.
Variable numberToString : number -> JS.string.
Variable conn_all : JS.string -> Engine -> outcome (Rows number) * Engine.

Local Abbreviation Node := (@App.Node number).
Local Abbreviation sqlNamed := (fun (lbl : JS.string) (n : Node) =>
  App.type n = js "sqlNode" /\ App.label (App.data n) = Some lbl).
Local Abbreviation executeQuery := (SQLNode.executeQuery numberToString conn_all).

Lemma includes_false s c : SQLNode.includes s c = false -> c ∉ s.
Proof.
  unfold SQLNode.includes. induction s as [|d s IH]; cbn [existsb].
  - intros _. apply not_elem_of_nil.
  - intros [Hd Hs]%orb_false_iff. apply N.eqb_neq in Hd. apply not_elem_of_cons. auto.
Qed.

(** X8: The test [sql.includes('{')] only picks a shorter way: a run gives what
    [executeSQLWithReferences] gives for the query, brace or no brace, and
    records it for the node. *)
Theorem executeQuery_dispatch id sql (nds : list Node) e :
  executeQuery id sql nds e =
  match Client.executeSQLWithReferences numberToString conn_all sql
          (App.getNodeByLabel nds) e with
  | (Resolved rows, e') =>
      (SQLNode.mkShown (Some rows) None, App.updateNodeResults id (Some rows) nds, e')
  | (Rejected err, e') =>
      (SQLNode.mkShown None (Some (message err)), App.updateNodeResults id None nds, e')
  end.
Proof.
  unfold SQLNode.executeQuery. destruct (SQLNode.includes sql JS.lbrace) eqn:Hb; [done|].
  rewrite executeSQLWithReferences_plain; [done|].
  apply matchAll_without. left. by apply includes_false.
Qed.

(** A run records what it shows. *)
Lemma executeQuery_records id sql (nds : list Node) e shown nds' e' :
  executeQuery id sql nds e = (shown, nds', e') ->
  nds' = App.updateNodeResults id (SQLNode.results shown) nds.
Proof.
  unfold SQLNode.executeQuery. destruct (_ e) as [[rows|err] e'']; by intros [= <- <- _].
Qed.

(** X9: A node whose last run failed, or returned no row, cannot be referenced:
    when it is the first SQL node with its label, a query whose first
    reference is to that label fails with [Node "..." has no results]
    before the server is called. *)
Theorem unsuccessful_run_blocks_references
    id sqlA (pre post : list Node) n lbl e shown nds' e' sql m ms e2 :
  Forall (fun n' => ~ sqlNamed lbl n') pre ->
  sqlNamed lbl n ->
  App.id n = id ->
  executeQuery id sqlA (pre ++ n :: post) e = (shown, nds', e') ->
  match SQLNode.results shown with Some (_ :: _) => False | _ => True end ->
  matchAll sql = m :: ms ->
  nodeLabel m = lbl ->
  Client.executeSQLWithReferences numberToString conn_all sql (App.getNodeByLabel nds') e2
  = (Rejected (mkError (Server.noResults lbl)), e2).
Proof.
  intros Hpre Hn Hid ->%executeQuery_records Hshown Hms Hm.
  pose proof (updateNodeResults_found pre post n lbl id (SQLNode.results shown) Hpre Hn) as Hg.
  rewrite decide_True in Hg by done.
  rewrite (executeSQLWithReferences_unresolved numberToString conn_all sql _ e2 [] m ms Hms);
    rewrite ?Hm, ?Hg; [done|done|].
  unfold hasRows. cbn [results]. by destruct (SQLNode.results shown) as [[|? ?]|].
Qed.

(** X10: After a run that returned rows, a reference to the node's label is
    resolved to these rows. *)
Theorem successful_run_is_referenced
    id sqlA (pre post : list Node) n lbl e rows nds' e' :
  Forall (fun n' => ~ sqlNamed lbl n') pre ->
  sqlNamed lbl n ->
  App.id n = id ->
  executeQuery id sqlA (pre ++ n :: post) e = (SQLNode.mkShown (Some rows) None, nds', e') ->
  App.getNodeByLabel nds' lbl = Some (mkNodeData (Some rows) lbl).
Proof.
  intros Hpre Hn Hid ->%executeQuery_records. cbn [SQLNode.results].
  rewrite updateNodeResults_found by done. by rewrite decide_True.
Qed.

End Runs.

(** ** The pages of the table *)

Section Pages.
Context {A : Type}.
Implicit Types data : list A.

Local Abbreviation totalPages := (@ResultsTable.totalPages A).
Local Abbreviation paginatedData := (@ResultsTable.paginatedData A).

(** The slice of a page, for a page from the first on. *)
Lemma paginatedData_take data (p : nat) :
  paginatedData data (Z.of_nat p + 1) = take 100 (drop (100 * p) data).
Proof.
  unfold ResultsTable.paginatedData, ResultsTable.endIdx, ResultsTable.startIdx,
    ResultsTable.ROWS_PER_PAGE, JSArray.slice.
  replace ((Z.of_nat p + 1 - 1) * 100)%Z with (Z.of_nat (100 * p)) by lia.
  destruct (Z.ltb_spec (Z.of_nat (100 * p)) 0); [lia|].
  destruct (Z.ltb_spec (Z.of_nat (100 * p) + 100) 0); [lia|].
  set (s := Z.of_nat (100 * p)). set (len := Z.of_nat (length data)).
  assert (Z.to_nat s = (100 * p)%nat) as Hs by (unfold s; lia).
  destruct (decide (100 * p <= length data)%nat) as [Hle|Hgt].
  - destruct (decide (100 * p + 100 <= length data)%nat).
    + rewrite (Z.min_l s len), (Z.min_l (s + 100) len), Hs by lia. f_equal. lia.
    + rewrite (Z.min_l s len), (Z.min_r (s + 100) len), Hs by lia.
      rewrite !take_ge; [done|rewrite length_drop; lia..].
  - rewrite (Z.min_r s len), (Z.min_r (s + 100) len) by lia.
    rewrite Z.sub_diag. cbn [Z.to_nat take].
    rewrite (drop_ge data (100 * p)) by lia. by rewrite take_nil.
Qed.

Lemma pages_take data (n : nat) :
  concat (List.map (fun i => paginatedData data (Z.of_nat i + 1)) (seq 0 n))
  = take (100 * n) data.
Proof.
  induction n as [|n IH].
  - by rewrite Nat.mul_0_r, take_0.
  - rewrite seq_S, map_app, concat_app, IH. cbn [List.map concat Nat.add].
    rewrite app_nil_r, paginatedData_take, take_take_drop. f_equal. lia.
Qed.

Lemma totalPages_bounds data :
  (100 * (totalPages data - 1) < Z.of_nat (length data) + 100 /\
   Z.of_nat (length data) <= 100 * totalPages data /\
   0 <= totalPages data /\
   (data ≠ [] -> 100 * (totalPages data - 1) < Z.of_nat (length data)))%Z.
Proof.
  unfold ResultsTable.totalPages, ResultsTable.ROWS_PER_PAGE.
  pose proof (Z.div_mod (Z.of_nat (length data) + (100 - 1)) 100 ltac:(lia)) as Hdm.
  pose proof (Z.mod_pos_bound (Z.of_nat (length data) + (100 - 1)) 100 ltac:(lia)) as Hm.
  assert (data ≠ [] -> 0 < length data)%nat by (destruct data; [done|cbn; lia]).
  repeat split; lia.
Qed.

(** X16: The pages, from the first to the last, are the rows: every row is on
    one page, in its order. *)
Theorem pages_cover_data data :
  concat (List.map (fun i => paginatedData data (Z.of_nat i + 1))
            (seq 0 (Z.to_nat (totalPages data))))
  = data.
Proof.
  rewrite pages_take. apply take_ge.
  pose proof (totalPages_bounds data). lia.
Qed.

Lemma press_range data (p p' : Z) :
  (1 <= p <= totalPages data)%Z -> ResultsTable.press data p p' ->
  (1 <= p' <= totalPages data)%Z.
Proof. intros Hp Hpress. destruct Hpress; lia. Qed.

Lemma presses_range data (p p' : Z) :
  (1 <= p <= totalPages data)%Z -> rtc (ResultsTable.press data) p p' ->
  (1 <= p' <= totalPages data)%Z.
Proof.
  intros Hp Hpress. induction Hpress as [|p q r Hpq _ IH]; [done|].
  apply IH. by apply (press_range data p).
Qed.

(** X17: From the first page, whatever buttons are pressed, the page shown has
    at least one row and at most a hundred; every page but the last has a
    hundred. *)
Theorem page_never_empty data (p : Z) :
  data ≠ [] ->
  rtc (ResultsTable.press data) 1%Z p ->
  (1 <= length (paginatedData data p) <= 100)%nat /\
  (p ≠ totalPages data -> length (paginatedData data p) = 100%nat).
Proof.
  intros Hne Hp. pose proof (totalPages_bounds data) as (H1 & H2 & H3 & H4).
  specialize (H4 Hne).
  assert (0 < length data)%nat as Hlen by (destruct data; [done|cbn; lia]).
  assert (1 <= p <= totalPages data)%Z as Hrange.
  { apply (presses_range data 1); [lia|done]. }
  replace p with (Z.of_nat (Z.to_nat (p - 1)) + 1)%Z by lia.
  rewrite paginatedData_take, length_take, length_drop.
  split; [lia|]. intros Hlast. lia.
Qed.

End Pages.

(** ** The axes of the chart *)

Section Charts.
Context {number : Type}.
Implicit Types data : ResultSet number.

Lemma slice_0_3 {B} (l : list B) : JSArray.slice l 0 3 = take 3 l.
Proof.
  unfold JSArray.slice. cbn [Z.ltb Z.compare].
  rewrite (Z.min_l 0) by lia. change (Z.to_nat 0) with 0%nat. rewrite drop_0, Z.sub_0_r.
  destruct (decide (3 <= length l)%nat).
  - by rewrite Z.min_l by lia.
  - rewrite Z.min_r by lia. rewrite Nat2Z.id.
    by rewrite (take_ge l (length l)), (take_ge l 3) by lia.
Qed.

Lemma differs_true x col : ResultsChart.differs x col = true <-> x ≠ Some col.
Proof. unfold ResultsChart.differs. by rewrite negb_true_iff, bool_decide_eq_false. Qed.

(** Keys taken from a list by the filter [col !== xAxisKey] and cut to
    three. *)
Lemma auto_keys x (l : list JS.string) k :
  k ∈ JSArray.slice (List.filter (ResultsChart.differs x) l) 0 3 -> k ∈ l /\ x ≠ Some k.
Proof.
  rewrite slice_0_3. intros Hk%subseteq_take%list_elem_of_In%filter_In.
  destruct Hk as [Hin Hd]. split; [by apply list_elem_of_In|by apply differs_true].
Qed.

(** X18: When the metrics are not chosen by the user, the chart draws at most
    three of them; each is a column of the rows and none is the column of
    the x axis. They are numeric columns as soon as there is a numeric
    column beside the x axis. *)
Theorem automatic_metrics data dimension config :
  ResultsChart.chartConfig data dimension [] = Some config ->
  exists row0 rest,
    data = row0 :: rest /\
    (length (ResultsChart.yAxisKeys config) <= 3)%nat /\
    (forall k, k ∈ ResultsChart.yAxisKeys config ->
               k ∈ keys row0 /\ ResultsChart.xAxisKey config ≠ Some k) /\
    ((exists c, c ∈ ResultsChart.numericColumns data (keys row0) /\
                ResultsChart.xAxisKey config ≠ Some c) ->
     forall k, k ∈ ResultsChart.yAxisKeys config ->
               k ∈ ResultsChart.numericColumns data (keys row0)).
Proof.
  unfold ResultsChart.chartConfig. destruct data as [|row0 rest]; [done|].
  set (x := match dimension with Some d => _ | None => _ end).
  set (nums := ResultsChart.numericColumns (row0 :: rest) (keys row0)).
  intros [= <-]. exists row0, rest. split; [done|]. cbn [ResultsChart.yAxisKeys ResultsChart.xAxisKey].
  destruct (JSArray.slice (List.filter (ResultsChart.differs x) nums) 0 3) as [|k0 ks] eqn:Hauto.
  - split; [rewrite slice_0_3, length_take; lia|]. split.
    + intros k Hk. by apply auto_keys in Hk.
    + intros (c & Hc & Hx). exfalso. rewrite slice_0_3 in Hauto.
      assert (c ∈ List.filter (ResultsChart.differs x) nums) as Hin.
      { apply list_elem_of_In, filter_In. split; [by apply list_elem_of_In|by apply differs_true]. }
      destruct (List.filter _ nums); [by apply elem_of_nil in Hin|done].
  - rewrite <- Hauto. split; [rewrite slice_0_3, length_take; lia|]. split.
    + intros k [Hk Hx]%auto_keys. split; [|done].
      apply list_elem_of_In, filter_In in Hk as [Hk _]. by apply list_elem_of_In.
    + intros _ k [Hk _]%auto_keys. done.
Qed.

(** X19: Rows with two columns or more are always charted: [No data] is for no
    rows and [No numeric data] for rows with one column at most. *)
Theorem two_columns_are_charted (row0 : Row number) rest dimension metrics c1 c2 :
  c1 ∈ keys row0 -> c2 ∈ keys row0 -> c1 ≠ c2 ->
  exists config, ResultsChart.view (row0 :: rest) dimension metrics = ResultsChart.Chart config.
Proof.
  intros H1 H2 Hne. unfold ResultsChart.view, ResultsChart.chartConfig.
  set (x := match dimension with Some d => _ | None => _ end).
  cbn [ResultsChart.yAxisKeys].
  destruct metrics as [|k ks]; [|by eexists].
  destruct (JSArray.slice (List.filter (ResultsChart.differs x)
              (ResultsChart.numericColumns (row0 :: rest) (keys row0))) 0 3) as [|k0 ks0];
    [|by eexists].
  assert (exists c, c ∈ List.filter (ResultsChart.differs x) (keys row0)) as [c Hc].
  { destruct (decide (x = Some c1)) as [Hx|Hx].
    - exists c2. apply list_elem_of_In, filter_In. split; [by apply list_elem_of_In|].
      apply differs_true. rewrite Hx. by intros [= ->].
    - exists c1. apply list_elem_of_In, filter_In. split; [by apply list_elem_of_In|].
      by apply differs_true. }
  rewrite slice_0_3. destruct (List.filter _ (keys row0)) as [|k l];
    [by apply elem_of_nil in Hc|]. by eexists.
Qed.

Lemma filter_all {B} (p : B -> bool) (l : list B) :
  length (List.filter p l) = length l -> List.filter p l = l.
Proof.
  induction l as [|b l IH]; [done|]. cbn [List.filter]. destruct (p b); cbn [length].
  - intros [= H]. by rewrite IH.
  - pose proof (filter_length_le p l). lia.
Qed.

Lemma resetMetrics_filter (row0 : Row number) rest prev :
  SQLNode.resetMetrics (Some (row0 :: rest)) prev =
  List.filter (fun metric => JSArray.includes (keys row0) metric) prev.
Proof.
  unfold SQLNode.resetMetrics.
  destruct (Nat.eqb_spec (length (List.filter (fun metric => JSArray.includes (keys row0) metric) prev))
              (length prev)) as [Heq|]; [|done].
  cbn [negb]. by rewrite filter_all.
Qed.

(** X20: When new rows arrive, the choices of the user for the chart are kept
    as far as they name columns of the new rows: every metric left is a
    column, the order of the metrics is kept, and a dimension left, unless
    it is the empty string, is a column. *)
Theorem chart_choices_follow_columns (row0 : Row number) rest prevDim prevMetrics :
  SQLNode.resetMetrics (Some (row0 :: rest)) prevMetrics =
    List.filter (fun metric => bool_decide (metric ∈ keys row0)) prevMetrics /\
  (forall d, SQLNode.resetDimension (Some (row0 :: rest)) prevDim = Some d ->
             prevDim = Some d /\ (d = [] \/ d ∈ keys row0)).
Proof.
  split; [apply resetMetrics_filter|].
  intros d. unfold SQLNode.resetDimension. destruct prevDim as [d'|]; [|done].
  destruct d' as [|c d']; cbn [JS.isEmpty negb andb].
  - intros [= <-]. by auto.
  - unfold JSArray.includes. destruct (bool_decide _) eqn:Hin; cbn [negb]; [|done].
    intros [= <-]. apply bool_decide_eq_true in Hin. by auto.
Qed.

End Charts.

(** ** The rest of the code at work *)

Lemma match_shape_witness :
  raw salesMatch = JS.lbrace :: group salesMatch ++ [JS.rbrace] /\
  group salesMatch ≠ [] /\
  (JS.rbrace ∉ group salesMatch) /\
  JS.trimStart (nodeLabel salesMatch) = nodeLabel salesMatch /\
  JS.trimEnd (nodeLabel salesMatch) = nodeLabel salesMatch.
Proof.
  apply (match_shape selectSales salesMatch). vm_compute. by left.
Defined.

Lemma tempTableName_word_injective_witness : js "sales_2024" = js "sales_2024".
Proof.
  apply (tempTableName_word_injective (js "sales_2024") (js "sales_2024"));
    [by repeat constructor..|reflexivity].
Defined.

Lemma referencing_query_is_sent_witness :
  Database.executeSQL (@accepting Z) (rewrite (js " {sales} ")) tt
  = accepting (JS.trim (rewrite (js " {sales} "))) tt.
Proof.
  apply (referencing_query_is_sent (@accepting Z) (js " {sales} ") tt). by vm_compute.
Defined.

Lemma client_references_resolve_witness :
  exists node row0 rows,
    getNodeByLabel canvas (nodeLabel salesMatch) = Some node /\
    results node = Some (row0 :: rows) /\
    resolve salesRefs salesMatch = Some (row0, row0 :: rows).
Proof.
  apply (client_references_resolve selectSales (getNodeByLabel canvas) salesRefs salesMatch).
  - reflexivity.
  - vm_compute. by left.
  - by vm_compute.
Defined.

Lemma proto_label_is_lost_witness :
  ((∅ : gmap JS.string (NodeData Z)) !! js "__proto__" = None) /\
  resolve (∅ : gmap JS.string (NodeData Z)) protoMatch = None.
Proof.
  apply (proto_label_is_lost (js "SELECT * FROM {__proto__}")
           (fun l => if decide (l = js "__proto__") then Some protoNode else None) ∅ protoMatch);
    reflexivity.
Defined.

Lemma executeSQLWithReferences_outcome_witness :
  Client.executeSQLWithReferences zToString (traced (answering countRows))
    (js "SELECT COUNT(*) AS n FROM {sales}") (getNodeByLabel canvas) (tt, [])
  = (Rejected (mkError (js "Do not know how to serialize a BigInt")),
     (tt, [salesCreate; js "SELECT COUNT(*) AS n FROM temp_sales";
           js "DROP TABLE temp_sales"; js "DROP TABLE temp_sales"])).
Proof.
  exact (executeSQLWithReferences_outcome zToString (traced (answering countRows))
           (js "SELECT COUNT(*) AS n FROM {sales}")
           (getNodeByLabel canvas) salesRefs (tt, []) eq_refl eq_refl).
Defined.

Lemma getNodeByLabel_first_witness :
  App.getNodeByLabel [salesNote; salesDraft; salesRun] (js "sales") =
  Some (mkNodeData None (js "sales")).
Proof.
  apply (getNodeByLabel_first [salesNote] [salesRun] salesDraft (js "sales")).
  - constructor; [|constructor]. intros [Ht _]. by vm_compute in Ht.
  - by split.
Defined.

Lemma updateNodeResults_lookup_witness :
  App.getNodeByLabel
    (App.updateNodeResults (js "2") (Some salesRows) [salesNote; salesDraft; salesRun])
    (js "sales")
  = Some (mkNodeData (Some salesRows) (js "sales")).
Proof.
  apply (updateNodeResults_lookup [salesNote] [salesRun] salesDraft (js "sales") (js "2")
           (Some salesRows)).
  - constructor; [|constructor]. intros [Ht _]. by vm_compute in Ht.
  - by split.
Defined.

Lemma node_ids_unique_witness :
  NoDup (List.map App.id
           (App.nodes (App.addNoteNode (App.addNode (@App.initial Z))))).
Proof.
  apply node_ids_unique.
  eapply App.reachable_step; [|apply App.step_addNoteNode].
  eapply App.reachable_step; [|apply App.step_addNode].
  apply App.reachable_initial.
Defined.

Lemma locked_node_not_draggable_witness :
  App.draggable
    (App.mkNode (js "1") (js "sqlNode") (Some false)
       (App.mkData (Some (js "SQL Node #1")) (@None (ResultSet Z))
          (Some (js "SELECT * FROM users LIMIT 10")) None (Some true)))
  = Some false.
Proof.
  apply (locked_node_not_draggable
           (App.mkCanvas (App.updateNodeLock (js "1") true (App.nodes App.initial))
              (App.nodeId (@App.initial Z)))).
  - eapply App.reachable_step; [apply App.reachable_initial|].
    apply App.step_updateNodeLock.
  - by left.
  - reflexivity.
Defined.

Lemma unsuccessful_run_blocks_references_witness :
  Client.executeSQLWithReferences zToString accepting selectSales
    (App.getNodeByLabel
       (App.updateNodeResults (js "2") (Some []) [salesNote; salesDraft; salesRun])) tt
  = (Rejected (mkError (Server.noResults (js "sales"))), tt).
Proof.
  apply (unsuccessful_run_blocks_references zToString accepting (js "2") (js "SELECT 1")
           [salesNote] [salesRun] salesDraft (js "sales") tt
           (SQLNode.mkShown (Some []) None)
           (App.updateNodeResults (js "2") (Some []) [salesNote; salesDraft; salesRun]) tt
           selectSales salesMatch [] tt).
  - constructor; [|constructor]. intros [Ht _]. by vm_compute in Ht.
  - by split.
  - reflexivity.
  - reflexivity.
  - exact I.
  - reflexivity.
  - reflexivity.
Defined.

Lemma successful_run_is_referenced_witness :
  App.getNodeByLabel
    (App.updateNodeResults (js "2") (Some salesRows) [salesNote; salesDraft; salesRun])
    (js "sales")
  = Some (mkNodeData (Some salesRows) (js "sales")).
Proof.
  apply (successful_run_is_referenced zToString (answering (ofJSON salesRows)) (js "2") (js "SELECT 1")
           [salesNote] [salesRun] salesDraft (js "sales") tt salesRows
           (App.updateNodeResults (js "2") (Some salesRows) [salesNote; salesDraft; salesRun])
           tt).
  - constructor; [|constructor]. intros [Ht _]. by vm_compute in Ht.
  - by split.
  - reflexivity.
  - reflexivity.
Defined.

Lemma page_never_empty_witness :
  (1 <= length (ResultsTable.paginatedData (replicate 250 tt) 3) <= 100)%nat /\
  (3%Z ≠ ResultsTable.totalPages (replicate 250 tt) ->
   length (ResultsTable.paginatedData (replicate 250 tt) 3) = 100%nat).
Proof.
  apply (page_never_empty (replicate 250 tt) 3); [done|].
  eapply rtc_l; [|apply rtc_refl].
  exact (ResultsTable.press_last (replicate 250 tt) 1%Z ltac:(by vm_compute)).
Defined.

Lemma automatic_metrics_witness :
  exists row0 rest,
    salesRows = row0 :: rest /\
    (length [js "total"] <= 3)%nat /\
    (forall k, k ∈ [js "total"] -> k ∈ keys row0 /\ Some (js "city") ≠ Some k) /\
    ((exists c, c ∈ ResultsChart.numericColumns salesRows (keys row0) /\
                Some (js "city") ≠ Some c) ->
     forall k, k ∈ [js "total"] -> k ∈ ResultsChart.numericColumns salesRows (keys row0)).
Proof.
  exact (automatic_metrics salesRows None
           (ResultsChart.mkChartConfig (Some (js "city")) [js "total"]) eq_refl).
Defined.

Lemma two_columns_are_charted_witness :
  exists config,
    ResultsChart.view salesRows None [] = ResultsChart.Chart config.
Proof.
  apply (two_columns_are_charted _ _ None [] (js "city") (js "total")).
  - by left.
  - right. by left.
  - by vm_compute.
Defined.

Lemma routes_reject_blank_witness :
  let answer : Response Z := Failure (js "Empty query") in
  Server.queryLocal (traced (@accepting Z)) (js "   ") (tt, [])
    = (Resolved answer, (tt, [])) /\
  Server.queryLocalWithReferences zToString (traced accepting) (js "   ") salesRefs (tt, [])
    = (Resolved answer, (tt, [])).
Proof.
  apply (routes_reject_blank zToString accepting (js "   ") salesRefs tt []).
  repeat constructor.
Defined.
